(** * lineup-list: the page routes ([src/routes/pages.ts])

    A shallow embedding of the Express route handlers of [pages.ts] and the
    properties of the session-driven customization flow: the home dropdown,
    the selection merger of [/customize], the track resolver of
    [/personalized-lineup] and the guard of [/generate-playlist-success].

    The handlers are functions from the Redis session store and the request
    to an outcome: the response, the store afterwards and the console
    output.  The helpers of [redis-helper.ts] and the tables of
    [constants.ts] are interfaces ([RedisHelper], [Constants]); every theorem
    holds for all their implementations. *)

From Stdlib Require Import ZArith Ascii Permutation Sorted Lia.
From stdpp Require Import base option list gmap strings pretty sorting.

Local Open Scope Z_scope.

(** ** The JavaScript values and built-ins the handlers use *)

Module Js.

(** A [number] that the code only ever uses as an integer, or [NaN]
    (the result of a failed [parseInt]). *)
Inductive number : Type :=
| Num (z : Z)
| NaN.

#[export] Instance number_eq_dec : EqDecision number.
Proof. solve_decision. Defined.

(** [isNaN(x)] for a possibly-undefined number: [isNaN(undefined)] is [true]. *)
Definition isNaN (x : option number) : bool :=
  match x with
  | Some (Num _) => false
  | Some NaN | None => true
  end.

(** [x === y] on numbers: [NaN] is not equal to itself. *)
Definition strict_eq (x y : number) : bool :=
  match x, y with
  | Num a, Num b => bool_decide (a = b)
  | _, _ => false
  end.

(** [Number.prototype.toString()], and numbers inside template literals. *)
Definition toString (x : number) : string :=
  match x with
  | Num z => pretty z
  | NaN => "NaN"
  end.

(** [!s] for a possibly-undefined string: [undefined] and [""] are falsy. *)
Definition falsy (s : option string) : bool :=
  match s with
  | None => true
  | Some s => bool_decide (s = "")
  end.

(** [Array.prototype.includes] (SameValueZero; on strings and integers it
    is equality). *)
Definition includes `{EqDecision A} (l : list A) (x : A) : bool :=
  bool_decide (x ∈ l).

(** [years.includes(y)] for a list of integers and a number that may be
    [NaN]: no integer is [NaN]. *)
Definition includes_number (l : list Z) (x : number) : bool :=
  match x with
  | Num z => includes l z
  | NaN => false
  end.

(** [s.split(sep)] for a one-character separator: never the empty array,
    [''.split(',')] is [['']]. *)
Fixpoint split (sep : ascii) (s : string) : list string :=
  match s with
  | EmptyString => [""]
  | String c s' =>
      if decide (c = sep) then "" :: split sep s'
      else match split sep s' with
           | h :: t => String c h :: t
           | [] => [String c ""]
           end
  end.

(** [l.join(sep)]. *)
Definition join (sep : string) (l : list string) : string :=
  String.concat sep l.

(** [parseInt(s, 10)].  A string is its UTF-8 bytes.  Leading white space
    is skipped: every StrWhiteSpaceChar, which is TAB, LF, VT, FF, CR and
    the space, the no-break space U+00A0, U+1680, U+2000 to U+200A, the
    line and paragraph separators U+2028 and U+2029, U+202F, U+205F,
    U+3000 and the byte order mark U+FEFF.  Then comes an optional sign,
    then the longest run of decimal digits; no digit gives [NaN].  The
    value of the digits is rounded to the nearest double, ties to even,
    as the engine does. *)

(** The white space of one byte: U+0009 to U+000D and U+0020. *)
Definition is_white_space (c : ascii) : bool :=
  let n := N_of_ascii c in
  ((9 <=? n) && (n <=? 13) || (n =? 32))%N.

(** The white space of two bytes: U+00A0 is C2 A0. *)
Definition is_white_space2 (c1 c2 : ascii) : bool :=
  ((N_of_ascii c1 =? 194) && (N_of_ascii c2 =? 160))%N.

(** The white space of three bytes: U+1680 is E1 9A 80, U+2000 to U+200A
    are E2 80 80 to E2 80 8A, U+2028 and U+2029 are E2 80 A8 and E2 80 A9,
    U+202F is E2 80 AF, U+205F is E2 81 9F, U+3000 is E3 80 80 and
    U+FEFF is EF BB BF. *)
Definition is_white_space3 (c1 c2 c3 : ascii) : bool :=
  let n1 := N_of_ascii c1 in
  let n2 := N_of_ascii c2 in
  let n3 := N_of_ascii c3 in
  ((n1 =? 225) && (n2 =? 154) && (n3 =? 128)
   || (n1 =? 226) && (n2 =? 128)
      && ((128 <=? n3) && (n3 <=? 138) || (n3 =? 168) || (n3 =? 169)
          || (n3 =? 175))
   || (n1 =? 226) && (n2 =? 129) && (n3 =? 159)
   || (n1 =? 227) && (n2 =? 128) && (n3 =? 128)
   || (n1 =? 239) && (n2 =? 187) && (n3 =? 191))%N.

Fixpoint skip_white_space (s : string) : string :=
  match s with
  | EmptyString => ""
  | String c1 s1 =>
      if is_white_space c1 then skip_white_space s1
      else
        match s1 with
        | EmptyString => s
        | String c2 s2 =>
            if is_white_space2 c1 c2 then skip_white_space s2
            else
              match s2 with
              | EmptyString => s
              | String c3 s3 =>
                  if is_white_space3 c1 c2 c3 then skip_white_space s3
                  else s
              end
        end
  end.

Definition digit_of (c : ascii) : option Z :=
  let n := Z.of_N (N_of_ascii c) in
  if (48 <=? n) && (n <=? 57) then Some (n - 48) else None.

Fixpoint digits (acc : option Z) (s : string) : option Z :=
  match s with
  | String c s' =>
      match digit_of c with
      | Some d => digits (Some (10 * default 0 acc + d)) s'
      | None => acc
      end
  | EmptyString => acc
  end.

(** The double nearest to a natural number [n], ties to the even
    significand: below 2^53 it is [n]; from there on [n] keeps its 53
    leading bits.  From 2^1024 on the double is [Infinity], which is no
    integer; [NaN] stands for it here, the handlers treating the two
    alike (neither is among the years of a festival). *)
Definition nearest_double (n : Z) : number :=
  if n <? 2 ^ 53 then Num n
  else
    let shift := Z.log2 n - 52 in
    let q := Z.shiftr n shift in
    let r := n - Z.shiftl q shift in
    let half := 2 ^ (shift - 1) in
    let q := if (half <? r) || (r =? half) && Z.odd q then q + 1 else q in
    let d := Z.shiftl q shift in
    if d <? 2 ^ 1024 then Num d else NaN.

Definition parseInt10 (s : string) : number :=
  let s := skip_white_space s in
  let '(sign, s) :=
    match s with
    | String "-" s' => (-1, s')
    | String "+" s' => (1, s')
    | _ => (1, s)
    end in
  match digits None s with
  | Some n =>
      match nearest_double n with
      | Num d => Num (sign * d)
      | NaN => NaN
      end
  | None => NaN
  end.

(** [Array.prototype.sort(cmp)]: a stable sort (ECMAScript 2019).  For a
    comparator that is a total preorder every stable sort returns the same
    array, so an insertion sort stands for the engine's. *)
Section sort.
Context {A : Type} (cmp : A → A → comparison).

Fixpoint sort_insert (x : A) (l : list A) : list A :=
  match l with
  | [] => [x]
  | y :: l' =>
      match cmp x y with
      | Gt => y :: sort_insert x l'
      | _ => x :: l
      end
  end.

Definition sort (l : list A) : list A := foldr sort_insert [] l.

(** [x] may stand before [y] in the sorted array. *)
Definition sort_le (x y : A) : Prop := cmp x y ≠ Gt.
End sort.

(** [Array.prototype.sort()] without a comparator orders the elements by
    their [ToString] in code-unit order; every plain object converts to
    ["[object Object]"]. *)
Definition object_toString {A : Type} (_ : A) : string := "[object Object]".

Definition sort_default {A : Type} (toStr : A → string) (l : list A) : list A :=
  sort (λ x y, String.compare (toStr x) (toStr y)) l.

(** [[...new Set(l)]]: the distinct elements in order of first occurrence. *)
Definition distinct `{EqDecision A} (l : list A) : list A :=
  foldl (λ acc x, if includes acc x then acc else acc ++ [x]) [] l.

(** [Map<string, V>]: the entries in insertion order.  [set] on a key that
    is present replaces the value and keeps the entry's place. *)
Module Map.
Abbreviation t V := (list (string * V)) (only parsing).

Definition empty {V : Type} : t V := [].

Definition has {V : Type} (k : string) (m : t V) : bool :=
  bool_decide (k ∈ m.*1).

Definition set {V : Type} (k : string) (v : V) (m : t V) : t V :=
  if has k m
  then (λ kv : string * V, if decide (kv.1 = k) then (k, v) else kv) <$> m
  else m ++ [(k, v)].

Definition values {V : Type} (m : t V) : list V := m.*2.
End Map.

End Js.

Import Js.

(** ** The data model ([types.d.ts], as the handlers use it) *)

Module Festival.
Record t : Type := Build {
  name : string;
  display_name : string;
  region : string;
  years : list Z;
}.
#[export] Instance eq_dec : EqDecision t.
Proof. solve_decision. Defined.
End Festival.

Module Region.
Record t : Type := Build {
  name : string;
  display_name : string;
}.
End Region.

Module SpotifyArtist.
Record t : Type := Build {
  id : string;
  name : string;
  combined_genres : list string;
  checkedStr : string;
}.
Definition with_checkedStr (a : t) (s : string) : t :=
  Build (id a) (name a) (combined_genres a) s.
End SpotifyArtist.

Module SpotifyTrack.
Record t : Type := Build {
  id : string;
  name : string;
}.
End SpotifyTrack.

Module LineupDay.
Record t : Type := Build {
  number : Z;
  date : string;
}.
End LineupDay.

(** [{state, obj}]: a selectable item with its checkbox state. *)
Module StatefulObject.
Record t (T : Type) : Type := Build {
  state : string;
  obj : T;
}.
Arguments Build {T} _ _.
Arguments state {T} _.
Arguments obj {T} _.
End StatefulObject.

(** The session of one visitor.  [None] is a field that is [undefined]. *)
Module SessionData.
Record t : Type := Build {
  festivalName : string;
  festivalDisplayName : string;
  festivalYear : number;
  trackType : option string;
  tracksPerArtist : option number;
  artistIdsStr : option string;
  selectedGenresStr : option string;
  selectedDaysStr : option string;
  trackIdsStr : option string;
  playlistName : option string;
  playlistUrl : option string;
}.

(** [{festivalName, festivalDisplayName, festivalYear}] *)
Definition minimal (festivalName festivalDisplayName : string)
    (festivalYear : number) : t :=
  Build festivalName festivalDisplayName festivalYear
    None None None None None None None None.

(** [{...sessionData, trackIdsStr : v}] *)
Definition with_trackIdsStr (sd : t) (v : string) : t :=
  Build (festivalName sd) (festivalDisplayName sd) (festivalYear sd)
    (trackType sd) (tracksPerArtist sd) (artistIdsStr sd)
    (selectedGenresStr sd) (selectedDaysStr sd) (Some v)
    (playlistName sd) (playlistUrl sd).

(** The object as [hmset] sends it: one hash field per defined property,
    every value as a string. *)
Definition to_hash (sd : t) : gmap string string :=
  list_to_map (omap id [
    Some ("festivalName", festivalName sd);
    Some ("festivalDisplayName", festivalDisplayName sd);
    Some ("festivalYear", toString (festivalYear sd));
    pair "trackType" <$> trackType sd;
    pair "tracksPerArtist" <$> (toString <$> tracksPerArtist sd);
    pair "artistIdsStr" <$> artistIdsStr sd;
    pair "selectedGenresStr" <$> selectedGenresStr sd;
    pair "selectedDaysStr" <$> selectedDaysStr sd;
    pair "trackIdsStr" <$> trackIdsStr sd;
    pair "playlistName" <$> playlistName sd;
    pair "playlistUrl" <$> playlistUrl sd ]).
End SessionData.

(** ** The Redis session store

    The store maps a key to a hash; a key without a hash is absent.  The
    client sends its commands in the order they are issued, and the model
    takes every command to succeed. *)

Module Redis.
Abbreviation Store := (gmap string (gmap string string)) (only parsing).

(** [HDEL key field...]: a hash left without fields is removed. *)
Definition hdel (key : string) (fields : list string)
    (db : Store) : Store :=
  match db !! key with
  | None => db
  | Some h =>
      let h' := foldr delete h fields in
      if decide (h' = ∅) then delete key db else <[key := h']> db
  end.

(** [HMSET key obj]: the fields of [obj] overwrite, the others stay. *)
Definition hmset (key : string) (obj : gmap string string)
    (db : Store) : Store :=
  <[key := obj ∪ default ∅ (db !! key)]> db.

(** The fields stored under [key]. *)
Definition hgetall (key : string) (db : Store) : gmap string string :=
  default ∅ (db !! key).
End Redis.

(** ** The collaborators that are not in [pages.ts] *)

(** [constants.ts]: the tables the handlers read. *)
Class Constants : Type := {
  supportedFestivals : list Festival.t;
  regions : list Region.t;
  mainGenres : list string;
}.

(** [redis-helper.ts]: queries through the Redis client. *)
Class RedisHelper : Type := {
  getSessionData : Redis.Store → string → option SessionData.t;
  getArtistsForFestival : Redis.Store → string → number → list SpotifyArtist.t;
  getLineupDays : Redis.Store → string → number → list Z;
  getLineupDayMetadata : Redis.Store → string → number → Z → LineupDay.t;
  getLineupLastUpdatedDate : Redis.Store → string → number → Z;
  getNewestTracksForArtist :
    Redis.Store → SpotifyArtist.t → option number → option (list SpotifyTrack.t);
  getTopTracksForArtist :
    Redis.Store → SpotifyArtist.t → option number → option (list SpotifyTrack.t);
  getSetlistTracksForArtist :
    Redis.Store → SpotifyArtist.t → option number → option (list SpotifyTrack.t);
}.

(** The platform: [String.prototype.localeCompare] and [process.env]. *)
Class Platform : Type := {
  localeCompare : string → string → comparison;
  DEPLOY_STAGE : option string;
}.

(** ** Requests, responses and outcomes *)

Record Request : Type := {
  sessionUid : string;
  query : gmap string string;
}.

Inductive ConsoleEntry : Type :=
| console_log (msg : string)
| console_error (msg : string)
| console_warn (msg : string).

Record HomeView : Type := {
  home_prod : bool;
  home_supportedFestivals : list Festival.t;
}.

Record CustomizeView : Type := {
  cv_prod : bool;
  cv_titleOverride : string;
  cv_festival : Festival.t;
  cv_festivalYear : number;
  cv_lastUpdatedDate : Z;
  cv_artists : list SpotifyArtist.t;
  cv_mainGenres : list (StatefulObject.t string);
  cv_specificGenres : list (StatefulObject.t string);
  cv_days : list (StatefulObject.t LineupDay.t);
  cv_tracksPerArtist : number;
  cv_topTracksCheckedStr : string;
  cv_setlistTracksCheckedStr : string;
  cv_newTracksCheckedStr : string;
}.

(** [{...artist, tracks : tracksForArtist}] *)
Record ArtistWithTracks : Type := {
  act_artist : SpotifyArtist.t;
  act_tracks : option (list SpotifyTrack.t);
}.

Record LineupView : Type := {
  lv_prod : bool;
  lv_titleOverride : string;
  lv_festivalDisplayName : string;
  lv_playlistName : string;
  lv_acts : list ArtistWithTracks;
  lv_tracksPerArtist : option number;
}.

Record SuccessView : Type := {
  sv_prod : bool;
  sv_titleOverride : string;
  sv_festival : Festival.t;
  sv_festivalYear : number;
  sv_playlistName : option string;
  sv_playlistUrl : option string;
}.

(** An exception that leaves the handler: the request gets no response. *)
Inductive Exception : Type :=
| TypeError.

Inductive Response : Type :=
| Send (status : Z) (body : string)
| RenderHome (view : HomeView)
| RenderCustomize (view : CustomizeView)
| RenderLineup (view : LineupView)
| RenderSuccess (view : SuccessView)
| Throw (e : Exception).

Record Outcome : Type := {
  response : Response;
  db_after : Redis.Store;
  console : list ConsoleEntry;
}.

(** ** The routes of [setRoutes] *)

Section Routes.
Context {constants : Constants} {redisHelper : RedisHelper} {platform : Platform}.

(** [process.env.DEPLOY_STAGE === 'PROD'] *)
Definition prod : bool := bool_decide (DEPLOY_STAGE = Some "PROD").

(** A response that leaves the store as it is and logs nothing. *)
Definition reply (db : Redis.Store) (r : Response) : Outcome :=
  {| response := r; db_after := db; console := [] |}.

(** [`sessionData:${req.sessionUid}`] *)
Definition sessionKey (req : Request) : string :=
  "sessionData:" +:+ sessionUid req.

(** [supportedFestivals.filter(x => x.name === name && x.years.includes(year))[0]] *)
Definition findEdition (name : string) (year : number) : option Festival.t :=
  head (filter (λ x, Festival.name x = name
                     ∧ includes_number (Festival.years x) year)
               supportedFestivals).

(** *** [router.get("/")] *)

(** The disabled dropdown entry of a region. *)
Definition regionEntry (region : Region.t) : Festival.t :=
  {| Festival.display_name := Region.display_name region;
     Festival.years := [];
     Festival.name := "";
     Festival.region := Region.name region |}.

(** [x.region.localeCompare(y.region) || x.name.localeCompare(y.name)] *)
Definition compareFestivals (x y : Festival.t) : comparison :=
  match localeCompare (Festival.region x) (Festival.region y) with
  | Eq => localeCompare (Festival.name x) (Festival.name y)
  | c => c
  end.

Definition withRegionEntries : list Festival.t :=
  let sortedFestivals := supportedFestivals in
  let regionCodes := distinct (Festival.region <$> supportedFestivals) in
  foldl (λ sortedFestivals region,
           if includes regionCodes (Region.name region)
           then sortedFestivals ++ [regionEntry region]
           else sortedFestivals)
        sortedFestivals regions.

Definition sortedFestivals : list Festival.t :=
  sort compareFestivals withRegionEntries.

Definition home (db : Redis.Store) (req : Request) : Outcome :=
  reply db (RenderHome {| home_prod := prod;
                          home_supportedFestivals := sortedFestivals |}).

(** *** [router.get("/customize")] *)

(** [previouslySelected === null || previouslySelected.includes(id) ? "checked" : ""] *)
Definition checkedStr (previouslySelected : option (list string))
    (id : string) : string :=
  match previouslySelected with
  | None => "checked"
  | Some l => if includes l id then "checked" else ""
  end.

(** The local variables the session fills in. *)
Record Selection : Type := {
  tracksPerArtist : number;
  topTracksCheckedStr : string;
  setlistTracksCheckedStr : string;
  newTracksCheckedStr : string;
  previouslySelectedArtists : option (list string);
  previouslySelectedGenres : option (list string);
  previouslySelectedDays : option (list string);
}.

(** The branch for a session of this festival and year. *)
Definition restoreSelection (sessionData : SessionData.t)
    : Selection * list ConsoleEntry :=
  let tracksPerArtist :=
    if isNaN (SessionData.tracksPerArtist sessionData) then Num 3
    else default (Num 3) (SessionData.tracksPerArtist sessionData) in
  let trackType := SessionData.trackType sessionData in
  let '(top, setlist, new, log) :=
    if decide (trackType = Some "top") then ("checked", "", "", [])
    else if decide (trackType = Some "setlist") then ("", "checked", "", [])
    else if decide (trackType = Some "recent") then ("", "", "checked", [])
    else ("checked", "", "",
          [console_error
             ("Resetting customize page to last known state and recieved unknown tracktype: "
              +:+ (if falsy trackType then "null or undefined"
                   else default "" trackType))]) in
  ({| tracksPerArtist := tracksPerArtist;
      topTracksCheckedStr := top;
      setlistTracksCheckedStr := setlist;
      newTracksCheckedStr := new;
      previouslySelectedArtists :=
        split "," <$> SessionData.artistIdsStr sessionData;
      previouslySelectedGenres :=
        split "," <$> SessionData.selectedGenresStr sessionData;
      previouslySelectedDays :=
        split "," <$> SessionData.selectedDaysStr sessionData |}, log).

(** The branch for no session, or the session of another festival or year. *)
Definition defaultSelection : Selection :=
  {| tracksPerArtist := Num 3;
     topTracksCheckedStr := "checked";
     setlistTracksCheckedStr := "";
     newTracksCheckedStr := "";
     previouslySelectedArtists := None;
     previouslySelectedGenres := None;
     previouslySelectedDays := None |}.

(** The fields [hdel] removes. *)
Definition staleFields : list string :=
  ["tracksPerArtist"; "artistIdsStr"; "trackIdsStr"; "trackType";
   "playlistName"; "selectedDaysStr"; "selectedGenresStr"].

(** [redisClient.hdel(...)] and then [redisClient.hmset(..., newSessionData)]. *)
Definition resetSession (db : Redis.Store) (req : Request)
    (festival : Festival.t) (queryYear : number) : Redis.Store :=
  let newSessionData :=
    SessionData.minimal (Festival.name festival)
      (Festival.display_name festival) queryYear in
  let db := Redis.hdel (sessionKey req) staleFields db in
  Redis.hmset (sessionKey req) (SessionData.to_hash newSessionData) db.

(** The body of [for (const lineupDay of daysWithMetadata)]. *)
Definition dayStep (previouslySelectedDays : option (list string))
    (daysMap : Map.t (StatefulObject.t LineupDay.t))
    (lineupDay : LineupDay.t) : Map.t (StatefulObject.t LineupDay.t) :=
  let checkedStr :=
    checkedStr previouslySelectedDays (pretty (LineupDay.number lineupDay)) in
  Map.set (pretty (LineupDay.number lineupDay))
    (StatefulObject.Build checkedStr lineupDay) daysMap.

(** The body of [for (const genre of artist.combined_genres)]. *)
Definition genreStep (previouslySelectedGenres : option (list string))
    (maps : Map.t (StatefulObject.t string) * Map.t (StatefulObject.t string))
    (genre : string)
    : Map.t (StatefulObject.t string) * Map.t (StatefulObject.t string) :=
  let '(mainGenresMap, specificGenresMap) := maps in
  if includes mainGenres genre then
    if negb (Map.has genre mainGenresMap) then
      let checkedStr := checkedStr previouslySelectedGenres genre in
      (Map.set genre (StatefulObject.Build checkedStr genre) mainGenresMap,
       specificGenresMap)
    else maps
  else if negb (Map.has genre specificGenresMap) then
    let checkedStr := checkedStr previouslySelectedGenres genre in
    (mainGenresMap,
     Map.set genre (StatefulObject.Build checkedStr genre) specificGenresMap)
  else maps.

(** The state of [for (const artist of artists)]: the two genre maps and
    the artists already given their [checkedStr]. *)
Record MergeState : Type := {
  mainGenresMap : Map.t (StatefulObject.t string);
  specificGenresMap : Map.t (StatefulObject.t string);
  artistsDone : list SpotifyArtist.t;
}.

Definition artistStep (sel : Selection) (st : MergeState)
    (artist : SpotifyArtist.t) : MergeState :=
  let maps :=
    foldl (genreStep (previouslySelectedGenres sel))
      (mainGenresMap st, specificGenresMap st)
      (SpotifyArtist.combined_genres artist) in
  let artist :=
    SpotifyArtist.with_checkedStr artist
      (checkedStr (previouslySelectedArtists sel) (SpotifyArtist.id artist)) in
  {| mainGenresMap := maps.1;
     specificGenresMap := maps.2;
     artistsDone := artistsDone st ++ [artist] |}.

Definition mergeArtists (sel : Selection)
    (artists : list SpotifyArtist.t) : MergeState :=
  foldl (artistStep sel)
    {| mainGenresMap := Map.empty; specificGenresMap := Map.empty;
       artistsDone := [] |}
    artists.

(** [Array.from(map.values())] and then [.sort()]. *)
Definition sortedValues {T : Type} (map : Map.t (StatefulObject.t T))
    : list (StatefulObject.t T) :=
  sort_default object_toString (Map.values map).

Definition mergeDays (sel : Selection)
    (daysWithMetadata : list LineupDay.t) : list (StatefulObject.t LineupDay.t) :=
  let daysMap :=
    foldl (dayStep (previouslySelectedDays sel)) Map.empty daysWithMetadata in
  sortedValues daysMap.

(** [sessionData !== null && sessionData.festivalName === festival.name &&
    sessionData.festivalYear === queryYear]: the stored session, if it is
    the one of this festival and year. *)
Definition restoredSession (db : Redis.Store) (req : Request)
    (festival : Festival.t) (queryYear : number) : option SessionData.t :=
  match getSessionData db (sessionUid req) with
  | Some sessionData =>
      if bool_decide (SessionData.festivalName sessionData
                      = Festival.name festival)
         && strict_eq (SessionData.festivalYear sessionData) queryYear
      then Some sessionData
      else None
  | None => None
  end.

(** [redis.print], the callback of [hmset]: it logs the reply. *)
Definition redis_print (reply : string) : ConsoleEntry :=
  console_log ("Reply: " +:+ reply).

(** The [if / else] over the session: the selection, what is logged and
    the store afterwards. *)
Definition loadSelection (db : Redis.Store) (req : Request)
    (festival : Festival.t) (queryYear : number)
    : Selection * list ConsoleEntry * Redis.Store :=
  match restoredSession db req festival queryYear with
  | Some sessionData =>
      let '(sel, log) := restoreSelection sessionData in (sel, log, db)
  | None =>
      (defaultSelection, [redis_print "OK"],
       resetSession db req festival queryYear)
  end.

(** From [getArtistsForFestival] to the object given to [res.render]. *)
Definition customizeView (db : Redis.Store) (festival : Festival.t)
    (queryYear : number) (sel : Selection) : CustomizeView :=
  let artists :=
    getArtistsForFestival db (Festival.name festival) queryYear in
  let dayNumbers := getLineupDays db (Festival.name festival) queryYear in
  let daysWithMetadata :=
    getLineupDayMetadata db (Festival.name festival) queryYear
      <$> dayNumbers in
  let days := mergeDays sel daysWithMetadata in
  let merged := mergeArtists sel artists in
  let mainGenres := sortedValues (mainGenresMap merged) in
  let specificGenres := sortedValues (specificGenresMap merged) in
  let lastUpdatedDate :=
    getLineupLastUpdatedDate db (Festival.name festival) queryYear in
  {| cv_prod := prod;
     cv_titleOverride :=
       "Customize Playlist - " +:+ Festival.display_name festival
       +:+ " " +:+ toString queryYear;
     cv_festival := festival;
     cv_festivalYear := queryYear;
     cv_lastUpdatedDate := lastUpdatedDate;
     cv_artists := artistsDone merged;
     cv_mainGenres := mainGenres;
     cv_specificGenres := specificGenres;
     cv_days := days;
     cv_tracksPerArtist := tracksPerArtist sel;
     cv_topTracksCheckedStr := topTracksCheckedStr sel;
     cv_setlistTracksCheckedStr := setlistTracksCheckedStr sel;
     cv_newTracksCheckedStr := newTracksCheckedStr sel |}.

Definition customize (db : Redis.Store) (req : Request) : Outcome :=
  if falsy (query req !! "festival") || falsy (query req !! "year") then
    reply db (Send 400 "You need to choose a festival first.")
  else
    let queryYear := parseInt10 (default "" (query req !! "year")) in
    match findEdition (default "" (query req !! "festival")) queryYear with
    | None => reply db (Send 400 "Invalid query params")
    | Some festival =>
        if falsy (Some (Festival.name festival)) then
          reply db (Send 400 "Invalid query params")
        else
          let '(sel, log, db) := loadSelection db req festival queryYear in
          {| response :=
               RenderCustomize (customizeView db festival queryYear sel);
             db_after := db;
             console := log |}
    end.

(** *** [router.get("/personalized-lineup")] *)

(** The way the tracks of an artist are fetched. *)
Inductive Strategy : Type :=
| Newest
| Top
| Setlist.

(** The [if / else if / else] chain over [sessionData.trackType]: the
    strategy and whether the warning is printed. *)
Definition strategyOf (trackType : option string) : Strategy * bool :=
  if decide (trackType = Some "recent") then (Newest, false)
  else if decide (trackType = Some "top") then (Top, false)
  else if decide (trackType = Some "setlist") then (Setlist, false)
  else (Top, true).

Definition fetchWith (strategy : Strategy) (db : Redis.Store)
    (artist : SpotifyArtist.t) (tracksPerArtist : option number)
    : option (list SpotifyTrack.t) :=
  match strategy with
  | Newest => getNewestTracksForArtist db artist tracksPerArtist
  | Top => getTopTracksForArtist db artist tracksPerArtist
  | Setlist => getSetlistTracksForArtist db artist tracksPerArtist
  end.

Definition trackTypeWarning (trackType : option string) : ConsoleEntry :=
  console_warn
    ("Found track type of "
     +:+ (if falsy trackType then "undefined" else default "" trackType)
     +:+ " in session data, defaulting to top ttracks").

(** The state of [for (const artist of filteredArtists)]. *)
Record ResolveState : Type := {
  artistsWithTracks : list ArtistWithTracks;
  trackIds : list string;
  warnings : list ConsoleEntry;
}.

Definition resolveStep (db : Redis.Store) (sessionData : SessionData.t)
    (st : ResolveState) (artist : SpotifyArtist.t) : ResolveState :=
  let '(strategy, warn) := strategyOf (SessionData.trackType sessionData) in
  let tracksForArtist :=
    fetchWith strategy db artist (SessionData.tracksPerArtist sessionData) in
  let artistWithTracks :=
    {| act_artist := artist; act_tracks := tracksForArtist |} in
  {| artistsWithTracks := artistsWithTracks st ++ [artistWithTracks];
     trackIds :=
       match tracksForArtist with
       | Some tracks =>
           if (0 <? length tracks)%nat
           then trackIds st ++ (SpotifyTrack.id <$> tracks)
           else trackIds st
       | None => trackIds st
       end;
     warnings :=
       if warn
       then warnings st ++ [trackTypeWarning (SessionData.trackType sessionData)]
       else warnings st |}.

Definition resolveTracks (db : Redis.Store) (sessionData : SessionData.t)
    (filteredArtists : list SpotifyArtist.t) : ResolveState :=
  foldl (resolveStep db sessionData)
    {| artistsWithTracks := []; trackIds := []; warnings := [] |}
    filteredArtists.

(** [artists.filter(x => chosenArtistIds.includes(x.id))], or [[]] for an
    empty [chosenArtistIds]. *)
Definition filterArtists (chosenArtistIds : list string)
    (artists : list SpotifyArtist.t) : list SpotifyArtist.t :=
  if (0 <? length chosenArtistIds)%nat
  then filter (λ x, includes chosenArtistIds (SpotifyArtist.id x)) artists
  else [].

Definition personalizedLineup (db : Redis.Store) (req : Request) : Outcome :=
  match getSessionData db (sessionUid req) with
  | None =>
      reply db
        (Send 400
           "This url only accessible after generating a lineup from the customize page.")
  | Some sessionData =>
      let artists :=
        getArtistsForFestival db (SessionData.festivalName sessionData)
          (SessionData.festivalYear sessionData) in
      match SessionData.artistIdsStr sessionData with
      | None => reply db (Throw TypeError)
      | Some artistIdsStr =>
          let chosenArtistIds := split "," artistIdsStr in
          let filteredArtists := filterArtists chosenArtistIds artists in
          let resolved := resolveTracks db sessionData filteredArtists in
          let db' :=
            Redis.hmset (sessionKey req)
              (SessionData.to_hash
                 (SessionData.with_trackIdsStr sessionData
                    (join "," (trackIds resolved))))
              db in
          {| response :=
               RenderLineup
                 {| lv_prod := prod;
                    lv_titleOverride :=
                      "Personalized Lineup - "
                      +:+ SessionData.festivalDisplayName sessionData +:+ " "
                      +:+ toString (SessionData.festivalYear sessionData);
                    lv_festivalDisplayName :=
                      SessionData.festivalDisplayName sessionData;
                    lv_playlistName :=
                      SessionData.festivalDisplayName sessionData +:+ " "
                      +:+ toString (SessionData.festivalYear sessionData)
                      +:+ " - Lineup List";
                    lv_acts := artistsWithTracks resolved;
                    lv_tracksPerArtist :=
                      SessionData.tracksPerArtist sessionData |};
             db_after := db';
             console := warnings resolved |}
      end
  end.

(** *** [router.get("/generate-playlist-success")] *)

Definition generatePlaylistSuccess (db : Redis.Store) (req : Request) : Outcome :=
  match getSessionData db (sessionUid req) with
  | None =>
      reply db
        (Send 403 "This url only accessible after generating Spotify playlist.")
  | Some sessionData =>
      let festival :=
        findEdition (SessionData.festivalName sessionData)
          (SessionData.festivalYear sessionData) in
      let festivalYear := SessionData.festivalYear sessionData in
      match festival with
      | None => reply db (Throw TypeError)
      | Some festival =>
          reply db
            (RenderSuccess
               {| sv_prod := prod;
                  sv_titleOverride :=
                    Festival.display_name festival +:+ " "
                    +:+ toString festivalYear +:+ " Playlist Success";
                  sv_festival := festival;
                  sv_festivalYear := festivalYear;
                  sv_playlistName := SessionData.playlistName sessionData;
                  sv_playlistUrl := SessionData.playlistUrl sessionData |})
      end
  end.

End Routes.

(** ** The template helper and the route outside the sessions *)

(** [hbs.registerHelper("disableoptionifregion", ...)]:
    [object.name.length < 1 ? "disabled" : ""]. *)
Definition disableoptionifregion (object : Festival.t) : string :=
  if (String.length (Festival.name object) <? 1)%nat then "disabled" else "".

(** [router.get("/health")]: [res.send("healthy")], with the default status. *)
Definition health (db : Redis.Store) (req : Request) : Outcome :=
  {| response := Send 200 "healthy"; db_after := db; console := [] |}.

(** ** The vocabulary of the properties *)

(** The rule of the selection merger: without a previously selected list
    the item is checked; with one, it is checked if its identifier is in
    the list and unchecked otherwise. *)
Definition StateFollows (previouslySelected : option (list string))
    (id : string) (state : string) : Prop :=
  match previouslySelected with
  | None => state = "checked"
  | Some l => (id ∈ l ∧ state = "checked") ∨ (¬ id ∈ l ∧ state = "")
  end.

(** The list a session field holds, [None] without the session or the field. *)
Definition previouslySelected (field : SessionData.t → option string)
    (session : option SessionData.t) : option (list string) :=
  match session with
  | Some sessionData => split "," <$> field sessionData
  | None => None
  end.

(** The genre tags in the order the artist loop meets them. *)
Definition genresOf (artists : list SpotifyArtist.t) : list string :=
  artists ≫= SpotifyArtist.combined_genres.

(** The genre list of the page: the main genres, then the specific ones. *)
Definition mergedGenres {constants : Constants} (sel : Selection)
    (artists : list SpotifyArtist.t) : list (StatefulObject.t string) :=
  sortedValues (mainGenresMap (mergeArtists sel artists))
  ++ sortedValues (specificGenresMap (mergeArtists sel artists)).

(** The ids of the tracks a fetch returned, none for [null]. *)
Definition fetchedIds (tracks : option (list SpotifyTrack.t)) : list string :=
  match tracks with
  | Some tracks => SpotifyTrack.id <$> tracks
  | None => []
  end.

(** The order of the dropdown: by region code first, by festival name
    within a region. *)
Definition dropdownOrder {platform : Platform} (x y : Festival.t) : Prop :=
  localeCompare (Festival.region x) (Festival.region y) = Lt
  ∨ (localeCompare (Festival.region x) (Festival.region y) = Eq
     ∧ localeCompare (Festival.name x) (Festival.name y) ≠ Gt).

(** Whether the character occurs in the string. *)
Fixpoint contains (c : ascii) (s : string) : bool :=
  match s with
  | EmptyString => false
  | String c' s' => bool_decide (c' = c) || contains c s'
  end.

(** The entry of a genre tag in the genre lists of the page. *)
Definition genreEntry (prev : option (list string)) (genre : string)
    : StatefulObject.t string :=
  StatefulObject.Build (checkedStr prev genre) genre.

(** The entry of a day in the day list of the page. *)
Definition dayEntry (prev : option (list string)) (day : LineupDay.t)
    : StatefulObject.t LineupDay.t :=
  StatefulObject.Build (checkedStr prev (pretty (LineupDay.number day))) day.

(** The invariant of the genre loop after the tags [seen]. *)
Record GenreInv {constants : Constants} (prev : option (list string))
    (seen : list string)
    (main specific : list (string * StatefulObject.t string)) : Prop := {
  inv_main_NoDup : NoDup main.*1;
  inv_specific_NoDup : NoDup specific.*1;
  inv_main_entry k v :
    (k, v) ∈ main →
    v = StatefulObject.Build (checkedStr prev k) k ∧ k ∈ seen ∧ k ∈ mainGenres;
  inv_specific_entry k v :
    (k, v) ∈ specific →
    v = StatefulObject.Build (checkedStr prev k) k ∧ k ∈ seen ∧ k ∉ mainGenres;
  inv_seen g :
    g ∈ seen → if decide (g ∈ mainGenres) then g ∈ main.*1 else g ∈ specific.*1;
}.

(** The invariant of the day loop after the days [seen]. *)
Record DaysInv (prev : option (list string)) (seen : list LineupDay.t)
    (daysMap : list (string * StatefulObject.t LineupDay.t)) : Prop := {
  inv_day_entry k v :
    (k, v) ∈ daysMap →
    k = pretty (LineupDay.number (StatefulObject.obj v))
    ∧ StatefulObject.state v = checkedStr prev k
    ∧ StatefulObject.obj v ∈ seen;
  inv_day_seen d :
    d ∈ seen → pretty (LineupDay.number d) ∈ daysMap.*1;
}.

(** What the proofs about the dropdown ask of [localeCompare]: it is a
    total preorder in which the empty string comes first. *)
Class Collation {platform : Platform} : Prop := {
  localeCompare_antisym x y :
    localeCompare y x = CompOpp (localeCompare x y);
  localeCompare_trans x y z :
    localeCompare x y ≠ Gt → localeCompare y z ≠ Gt → localeCompare x z ≠ Gt;
  localeCompare_empty s :
    s ≠ "" → localeCompare "" s = Lt;
}.

(** ** A small installation, to run the handlers on *)

Module Example.

#[export] Instance constants : Constants := {|
  supportedFestivals := [
    Festival.Build "Coachella" "Coachella" "us" [2023; 2024];
    Festival.Build "Bonnaroo" "Bonnaroo" "us" [2024];
    Festival.Build "Glastonbury" "Glastonbury" "eu" [2024] ];
  regions := [
    Region.Build "eu" "Europe";
    Region.Build "us" "United States";
    Region.Build "au" "Australia" ];
  mainGenres := ["rock"; "pop"];
|}.

(** Code-unit order in place of the locale's collation. *)
#[export] Instance platform : Platform := {|
  localeCompare := String.compare;
  DEPLOY_STAGE := Some "PROD";
|}.

(** Modelled from the spec: [redisHelper.getSessionData] of
    [redis-helper.ts], which is not among the sources: none if no hash
    exists for the key, otherwise the session attributes stored in it. *)
Definition loadSession (db : Redis.Store) (uid : string) : option SessionData.t :=
  h ← db !! ("sessionData:" +:+ uid);
  Some {| SessionData.festivalName := default "" (h !! "festivalName");
          SessionData.festivalDisplayName :=
            default "" (h !! "festivalDisplayName");
          SessionData.festivalYear :=
            parseInt10 (default "" (h !! "festivalYear"));
          SessionData.trackType := h !! "trackType";
          SessionData.tracksPerArtist := parseInt10 <$> h !! "tracksPerArtist";
          SessionData.artistIdsStr := h !! "artistIdsStr";
          SessionData.selectedGenresStr := h !! "selectedGenresStr";
          SessionData.selectedDaysStr := h !! "selectedDaysStr";
          SessionData.trackIdsStr := h !! "trackIdsStr";
          SessionData.playlistName := h !! "playlistName";
          SessionData.playlistUrl := h !! "playlistUrl" |}.

Definition lineup : list SpotifyArtist.t := [
  SpotifyArtist.Build "a1" "First Act" ["rock"; "indie"] "";
  SpotifyArtist.Build "a2" "Second Act" ["indie"; "pop"; "rock"] "";
  SpotifyArtist.Build "a3" "Third Act" ["techno"] "" ].

Definition track (artist : SpotifyArtist.t) (suffix : string) : SpotifyTrack.t :=
  SpotifyTrack.Build (SpotifyArtist.id artist +:+ suffix) "track".

#[export] Instance redisHelper : RedisHelper := {|
  getSessionData := loadSession;
  getArtistsForFestival _ _ _ := lineup;
  getLineupDays _ _ _ := [1; 2; 3];
  getLineupDayMetadata _ _ _ day := LineupDay.Build day "day";
  getLineupLastUpdatedDate _ _ _ := 1700000000000;
  getNewestTracksForArtist _ artist _ := Some [track artist "-new"];
  getTopTracksForArtist _ artist _ :=
    Some [track artist "-top1"; track artist "-top2"];
  getSetlistTracksForArtist _ artist _ := None;
|}.

(** [/customize?festival=Coachella&year=2024] *)
Definition customizeCoachella : Request :=
  {| sessionUid := "visitor";
     query := {[ "festival" := "Coachella"; "year" := "2024" ]} |}.

(** [/customize?festival=Unknown&year=2024] *)
Definition customizeUnknown : Request :=
  {| sessionUid := "visitor";
     query := {[ "festival" := "Unknown"; "year" := "2024" ]} |}.

(** [/customize?festival=Bonnaroo&year=2024] *)
Definition customizeBonnaroo : Request :=
  {| sessionUid := "visitor";
     query := {[ "festival" := "Bonnaroo"; "year" := "2024" ]} |}.

(** What [loadSession] returns for the three stores below. *)
Definition bonnarooData : SessionData.t :=
  {| SessionData.festivalName := "Bonnaroo";
     SessionData.festivalDisplayName := "Bonnaroo";
     SessionData.festivalYear := Num 2024;
     SessionData.trackType := Some "acoustic";
     SessionData.tracksPerArtist := Some (Num 2);
     SessionData.artistIdsStr := Some "a3,a1";
     SessionData.selectedGenresStr := Some "rock,techno";
     SessionData.selectedDaysStr := Some "2";
     SessionData.trackIdsStr := None;
     SessionData.playlistName := None;
     SessionData.playlistUrl := Some "https://open.spotify.com/playlist/1" |}.

Definition freshData : SessionData.t :=
  SessionData.minimal "Coachella" "Coachella" (Num 2024).

Definition strangerData : SessionData.t :=
  SessionData.minimal "Coachella" "Coachella" (Num 1999).

Definition coachella : Festival.t :=
  Festival.Build "Coachella" "Coachella" "us" [2023; 2024].

(** A request without query parameters. *)
Definition plain : Request :=
  {| sessionUid := "visitor"; query := ∅ |}.

(** The store after [/customize] for Bonnaroo 2024 and a saved selection. *)
Definition bonnarooSession : Redis.Store :=
  {[ "sessionData:visitor" :=
       {[ "festivalName" := "Bonnaroo";
          "festivalDisplayName" := "Bonnaroo";
          "festivalYear" := "2024";
          "trackType" := "acoustic";
          "tracksPerArtist" := "2";
          "artistIdsStr" := "a3,a1";
          "selectedGenresStr" := "rock,techno";
          "selectedDaysStr" := "2";
          "playlistUrl" := "https://open.spotify.com/playlist/1" ]} ]}.

(** The page for Bonnaroo 2024 with the saved selection restored. *)
Definition bonnaroo : Festival.t :=
  Festival.Build "Bonnaroo" "Bonnaroo" "us" [2024].

Definition bonnarooPage : CustomizeView :=
  customizeView bonnarooSession bonnaroo (Num 2024)
    (loadSelection bonnarooSession customizeBonnaroo bonnaroo (Num 2024)).1.1.

(** The store after [/customize] alone: the minimal record. *)
Definition freshSession : Redis.Store :=
  {[ "sessionData:visitor" :=
       {[ "festivalName" := "Coachella";
          "festivalDisplayName" := "Coachella";
          "festivalYear" := "2024" ]} ]}.

(** A session of an edition that is not in the catalog. *)
Definition strangerSession : Redis.Store :=
  {[ "sessionData:visitor" :=
       {[ "festivalName" := "Coachella";
          "festivalDisplayName" := "Coachella";
          "festivalYear" := "1999" ]} ]}.

(** The store with the session of a second visitor. *)
Definition twoVisitors : Redis.Store :=
  <[ "sessionData:guest" :=
       {[ "festivalName" := "Glastonbury";
          "festivalDisplayName" := "Glastonbury";
          "festivalYear" := "2024";
          "artistIdsStr" := "a2" ]} ]> bonnarooSession.

(** The Bonnaroo session with the saved selection emptied. *)
Definition emptiedSession : Redis.Store :=
  {[ "sessionData:visitor" :=
       {[ "festivalName" := "Bonnaroo";
          "festivalDisplayName" := "Bonnaroo";
          "festivalYear" := "2024";
          "artistIdsStr" := "";
          "selectedGenresStr" := "";
          "selectedDaysStr" := "" ]} ]}.

Definition emptiedData : SessionData.t :=
  {| SessionData.festivalName := "Bonnaroo";
     SessionData.festivalDisplayName := "Bonnaroo";
     SessionData.festivalYear := Num 2024;
     SessionData.trackType := None;
     SessionData.tracksPerArtist := None;
     SessionData.artistIdsStr := Some "";
     SessionData.selectedGenresStr := Some "";
     SessionData.selectedDaysStr := Some "";
     SessionData.trackIdsStr := None;
     SessionData.playlistName := None;
     SessionData.playlistUrl := None |}.

Definition emptiedPage : CustomizeView :=
  customizeView emptiedSession bonnaroo (Num 2024)
    (loadSelection emptiedSession customizeBonnaroo bonnaroo (Num 2024)).1.1.

End Example.

(** * Properties *)

(** ** The built-ins *)

(** A comparator that is a total preorder. *)
Section comparator_facts.
Context {A : Type} (cmp : A → A → comparison).
Hypothesis cmp_antisym : ∀ x y, cmp y x = CompOpp (cmp x y).
Hypothesis cmp_trans : ∀ x y z, cmp x y ≠ Gt → cmp y z ≠ Gt → cmp x z ≠ Gt.

Lemma cmp_refl x : cmp x x = Eq.
Proof. pose proof (cmp_antisym x x). by destruct (cmp x x). Qed.

Lemma cmp_Lt_le x y z : cmp x y = Lt → cmp y z ≠ Gt → cmp x z = Lt.
Proof.
  intros Hxy Hyz.
  assert (cmp x z ≠ Gt) as Hxz by (apply (cmp_trans x y z); congruence).
  destruct (cmp x z) eqn:Hc; [|done..].
  destruct (cmp_trans y z x); [done| |].
  - by rewrite cmp_antisym, Hc.
  - by rewrite cmp_antisym, Hxy.
Qed.

Lemma cmp_le_Lt x y z : cmp x y ≠ Gt → cmp y z = Lt → cmp x z = Lt.
Proof.
  intros Hxy Hyz.
  assert (cmp x z ≠ Gt) as Hxz by (apply (cmp_trans x y z); congruence).
  destruct (cmp x z) eqn:Hc; [|done..].
  destruct (cmp_trans z x y); [|done|].
  - by rewrite cmp_antisym, Hc.
  - by rewrite cmp_antisym, Hyz.
Qed.

Lemma cmp_Eq_Eq x y z : cmp x y = Eq → cmp y z = Eq → cmp x z = Eq.
Proof.
  intros Hxy Hyz.
  assert (cmp x z ≠ Gt) as Hxz by (apply (cmp_trans x y z); congruence).
  assert (cmp z x ≠ Gt) as Hzx.
  { apply (cmp_trans z y x); by rewrite cmp_antisym, ?Hxy, ?Hyz. }
  rewrite cmp_antisym in Hzx. by destruct (cmp x z).
Qed.

Lemma cmp_Eq_sym x y : cmp x y = Eq → cmp y x = Eq.
Proof. intros Hxy. by rewrite cmp_antisym, Hxy. Qed.

End comparator_facts.

Section sort_facts.
Context {A : Type} (cmp : A → A → comparison).

Lemma sort_insert_perm (x : A) (l : list A) : sort_insert cmp x l ≡ₚ x :: l.
Proof.
  induction l as [|y l IH]; simpl; [done|].
  destruct (cmp x y); try done.
  rewrite IH. apply perm_swap.
Qed.

Lemma sort_perm (l : list A) : sort cmp l ≡ₚ l.
Proof.
  induction l as [|x l IH]; simpl; [done|].
  rewrite sort_insert_perm. by f_equiv.
Qed.

(** A comparator that finds every pair equal leaves the array as it is. *)
Lemma sort_all_equal (l : list A) :
  (∀ x y, cmp x y = Eq) → sort cmp l = l.
Proof.
  intros Heq. induction l as [|x l IH]; simpl; [done|].
  rewrite IH. destruct l as [|y l]; simpl; [done|]. by rewrite Heq.
Qed.

Hypothesis cmp_antisym : ∀ x y, cmp y x = CompOpp (cmp x y).
Hypothesis cmp_trans : ∀ x y z, cmp x y ≠ Gt → cmp y z ≠ Gt → cmp x z ≠ Gt.

Lemma sort_insert_sorted (x : A) (l : list A) :
  StronglySorted (sort_le cmp) l →
  StronglySorted (sort_le cmp) (sort_insert cmp x l).
Proof.
  induction 1 as [|y l Hl IH Hy]; simpl.
  - repeat constructor.
  - assert (cmp x y ≠ Gt → StronglySorted (sort_le cmp) (x :: y :: l)) as Hle.
    { intros Hxy. constructor; [by constructor|]. constructor; [done|].
      eapply Forall_impl; [exact Hy|]. intros z Hz. by apply (cmp_trans x y z). }
    destruct (cmp x y) eqn:Hxy; [by apply Hle..|].
    constructor; [done|]. rewrite sort_insert_perm. constructor; [|done].
    unfold sort_le. by rewrite cmp_antisym, Hxy.
Qed.

(** The sorted array is ordered by the comparator ... *)
Lemma sort_sorted (l : list A) : StronglySorted (sort_le cmp) (sort cmp l).
Proof.
  induction l as [|x l IH]; simpl; [constructor|].
  by apply sort_insert_sorted.
Qed.

Lemma sort_insert_stable (z x : A) (l : list A) :
  filter (λ y, cmp z y = Eq) (sort_insert cmp x l)
  = filter (λ y, cmp z y = Eq) (x :: l).
Proof.
  induction l as [|y l IH]; simpl; [done|].
  destruct (cmp x y) eqn:Hxy; [done..|].
  rewrite (filter_cons _ y), IH, !(filter_cons _ x), (filter_cons _ y).
  destruct (decide (cmp z y = Eq)) as [Hy|]; [|done].
  destruct (decide (cmp z x = Eq)) as [Hx|]; [|done].
  apply (cmp_Eq_sym cmp cmp_antisym) in Hx.
  pose proof (cmp_Eq_Eq cmp cmp_antisym cmp_trans _ _ _ Hx Hy). congruence.
Qed.

(** ... and is stable: the elements that compare equal keep their order. *)
Lemma sort_stable (z : A) (l : list A) :
  filter (λ y, cmp z y = Eq) (sort cmp l) = filter (λ y, cmp z y = Eq) l.
Proof.
  induction l as [|x l IH]; simpl; [done|].
  by rewrite sort_insert_stable, !filter_cons, IH.
Qed.

End sort_facts.

(** Sorting wrapper objects without a comparator changes nothing: they
    all convert to the same string. *)
Lemma sort_default_objects {A : Type} (l : list A) :
  sort_default object_toString l = l.
Proof. apply sort_all_equal. done. Qed.

Lemma split_cons (sep : ascii) (s : string) :
  ∃ h t, split sep s = h :: t.
Proof.
  induction s as [|c s [h [t IH]]]; simpl; [by eauto|].
  destruct (decide (c = sep)); [by eauto|]. rewrite IH. by eauto.
Qed.

Lemma split_length (sep : ascii) (s : string) :
  (0 < length (split sep s))%nat.
Proof. destruct (split_cons sep s) as (h & t & ->). simpl. lia. Qed.

Lemma includes_spec `{EqDecision A} (l : list A) (x : A) :
  includes l x = true ↔ x ∈ l.
Proof. unfold includes. by rewrite bool_decide_eq_true. Qed.

Lemma elem_of_distinct `{EqDecision A} (l : list A) (x : A) :
  x ∈ distinct l ↔ x ∈ l.
Proof.
  unfold distinct.
  assert (∀ acc, x ∈ foldl (λ acc x, if includes acc x then acc
                                       else acc ++ [x]) acc l
                 ↔ x ∈ acc ∨ x ∈ l) as Hgen.
  { induction l as [|y l IH]; intros acc; simpl.
    - rewrite elem_of_nil. tauto.
    - rewrite IH, elem_of_cons. destruct (includes acc y) eqn:Hy.
      + apply includes_spec in Hy. split; [tauto|].
        intros [?|[->|?]]; tauto.
      + rewrite elem_of_app, list_elem_of_singleton. tauto. }
  rewrite Hgen, elem_of_nil. tauto.
Qed.

(** *** [Map] *)

Section map_facts.
Context {V : Type}.
Implicit Types (m : list (string * V)) (k : string) (v : V).

Lemma Map_has_spec k m : Map.has k m = true ↔ k ∈ m.*1.
Proof. unfold Map.has. by rewrite bool_decide_eq_true. Qed.

Lemma Map_has_false k m : Map.has k m = false ↔ k ∉ m.*1.
Proof. unfold Map.has. by rewrite bool_decide_eq_false. Qed.

(** [set] keeps the keys and their order, or adds the new key last. *)
Lemma Map_set_keys k v m :
  (Map.set k v m).*1 = if Map.has k m then m.*1 else m.*1 ++ [k].
Proof.
  unfold Map.set. destruct (Map.has k m).
  - rewrite <-list_fmap_compose. apply list_fmap_ext.
    intros _ [k' v'] _; simpl. by destruct (decide (k' = k)).
  - by rewrite fmap_app.
Qed.

Lemma Map_set_NoDup k v m : NoDup m.*1 → NoDup (Map.set k v m).*1.
Proof.
  intros Hm. rewrite Map_set_keys. destruct (Map.has k m) eqn:Hk; [done|].
  apply Map_has_false in Hk. apply NoDup_app. split_and!; [done| |].
  - intros k' Hk' ->%list_elem_of_singleton. done.
  - apply NoDup_singleton.
Qed.

(** After [set k v] the entries are the new one and the old ones of the
    other keys. *)
Lemma Map_elem_of_set k v m (kv : string * V) :
  kv ∈ Map.set k v m ↔ kv = (k, v) ∨ (kv.1 ≠ k ∧ kv ∈ m).
Proof.
  unfold Map.set. destruct (Map.has k m) eqn:Hk.
  - apply Map_has_spec in Hk. rewrite list_elem_of_fmap. split.
    + intros ([k' v'] & -> & Hin); simpl.
      destruct (decide (k' = k)); [by left|by right].
    + intros [->|[Hne Hin]].
      * apply list_elem_of_fmap in Hk as ([k' v'] & Hk' & Hin).
        simpl in Hk'. subst k'. exists (k, v'). split; [|done].
        simpl. by rewrite decide_True.
      * exists kv. split; [|done]. by rewrite decide_False.
  - apply Map_has_false in Hk. rewrite elem_of_app, list_elem_of_singleton.
    split.
    + intros [Hin| ->]; [right|by left]. split; [|done].
      intros <-. apply Hk. apply list_elem_of_fmap. by exists kv.
    + intros [->|[_ Hin]]; [by right|by left].
Qed.

End map_facts.

(** ** The selection merger *)

Section merger_facts.
Context {constants : Constants}.
Implicit Types (prev : option (list string)) (g k : string).

Lemma checkedStr_follows prev id : StateFollows prev id (checkedStr prev id).
Proof.
  unfold StateFollows, checkedStr. destruct prev as [l|]; [|done].
  destruct (includes l id) eqn:Hin.
  - left. by apply includes_spec in Hin.
  - right. split; [|done]. intros Hin'%includes_spec. congruence.
Qed.

Lemma GenreInv_empty prev : GenreInv prev [] Map.empty Map.empty.
Proof.
  split; unfold Map.empty; simpl.
  - apply NoDup_nil_2.
  - apply NoDup_nil_2.
  - intros k v Hin. by apply elem_of_nil in Hin.
  - intros k v Hin. by apply elem_of_nil in Hin.
  - intros g Hin. by apply elem_of_nil in Hin.
Qed.

Lemma GenreInv_seen_again prev seen main specific g :
  g ∈ seen →
  GenreInv prev seen main specific → GenreInv prev (seen ++ [g]) main specific.
Proof.
  intros Hg [H1 H2 H3 H4 H5]. split; [done|done|..].
  - intros k v Hin. destruct (H3 k v Hin) as (? & ? & ?).
    split_and!; [done| |done]. apply elem_of_app. by left.
  - intros k v Hin. destruct (H4 k v Hin) as (? & ? & ?).
    split_and!; [done| |done]. apply elem_of_app. by left.
  - intros g' [Hin| ->%list_elem_of_singleton]%elem_of_app; by apply H5.
Qed.

Lemma genreStep_inv prev seen main specific g :
  GenreInv prev seen main specific →
  GenreInv prev (seen ++ [g])
    (genreStep prev (main, specific) g).1 (genreStep prev (main, specific) g).2.
Proof.
  intros Hinv. pose proof Hinv as [H1 H2 H3 H4 H5]. unfold genreStep.
  destruct (includes mainGenres g) eqn:Hmain.
  - apply includes_spec in Hmain.
    destruct (Map.has g main) eqn:Hhas; simpl.
    + apply Map_has_spec in Hhas. apply GenreInv_seen_again; [|done].
      apply list_elem_of_fmap in Hhas as ([k v] & -> & Hin).
      by destruct (H3 k v Hin) as (_ & ? & _).
    + split; simpl.
      * by apply Map_set_NoDup.
      * done.
      * intros k v [[= -> ->]|[Hne Hin]]%Map_elem_of_set.
        { split_and!; [done| |done]. apply elem_of_app. right.
          by apply list_elem_of_singleton. }
        destruct (H3 k v Hin) as (? & ? & ?).
        split_and!; [done| |done]. apply elem_of_app. by left.
      * intros k v Hin. destruct (H4 k v Hin) as (? & ? & ?).
        split_and!; [done| |done]. apply elem_of_app. by left.
      * intros g' Hg'. rewrite Map_set_keys, Hhas.
        apply elem_of_app in Hg' as [Hg'| ->%list_elem_of_singleton].
        { specialize (H5 g' Hg'). destruct (decide (g' ∈ mainGenres)); [|done].
          apply elem_of_app. by left. }
        rewrite decide_True by done. apply elem_of_app. right.
        by apply list_elem_of_singleton.
  - assert (g ∉ mainGenres) as Hnot.
    { intros Hin%includes_spec. congruence. }
    destruct (Map.has g specific) eqn:Hhas; simpl.
    + apply Map_has_spec in Hhas. apply GenreInv_seen_again; [|done].
      apply list_elem_of_fmap in Hhas as ([k v] & -> & Hin).
      by destruct (H4 k v Hin) as (_ & ? & _).
    + split; simpl.
      * done.
      * by apply Map_set_NoDup.
      * intros k v Hin. destruct (H3 k v Hin) as (? & ? & ?).
        split_and!; [done| |done]. apply elem_of_app. by left.
      * intros k v [[= -> ->]|[Hne Hin]]%Map_elem_of_set.
        { split_and!; [done| |done]. apply elem_of_app. right.
          by apply list_elem_of_singleton. }
        destruct (H4 k v Hin) as (? & ? & ?).
        split_and!; [done| |done]. apply elem_of_app. by left.
      * intros g' Hg'. rewrite Map_set_keys, Hhas.
        apply elem_of_app in Hg' as [Hg'| ->%list_elem_of_singleton].
        { specialize (H5 g' Hg'). destruct (decide (g' ∈ mainGenres)); [done|].
          apply elem_of_app. by left. }
        rewrite decide_False by done. apply elem_of_app. right.
        by apply list_elem_of_singleton.
Qed.

Lemma genreLoop_inv prev gs seen main specific :
  GenreInv prev seen main specific →
  GenreInv prev (seen ++ gs)
    (foldl (genreStep prev) (main, specific) gs).1
    (foldl (genreStep prev) (main, specific) gs).2.
Proof.
  revert seen main specific.
  induction gs as [|g gs IH]; intros seen main specific Hinv; cbn [foldl].
  - by rewrite app_nil_r.
  - apply (genreStep_inv _ _ _ _ g) in Hinv.
    destruct (genreStep prev (main, specific) g) as [main' specific'].
    rewrite (cons_middle g), app_assoc. by apply IH.
Qed.

(** The artist loop is the genre loop over all tags of all artists, next
    to a map over the artists. *)
Lemma artistLoop_unfold sel artists st :
  foldl (artistStep sel) st artists =
  let maps :=
    foldl (genreStep (previouslySelectedGenres sel))
      (mainGenresMap st, specificGenresMap st) (genresOf artists) in
  {| mainGenresMap := maps.1;
     specificGenresMap := maps.2;
     artistsDone :=
       artistsDone st ++
       ((λ a, SpotifyArtist.with_checkedStr a
                (checkedStr (previouslySelectedArtists sel) (SpotifyArtist.id a)))
          <$> artists) |}.
Proof.
  revert st. induction artists as [|a artists IH]; intros st; simpl.
  - rewrite app_nil_r. by destruct st.
  - rewrite IH. unfold artistStep. simpl.
    unfold genresOf. simpl. rewrite foldl_app.
    destruct (foldl _ (mainGenresMap st, specificGenresMap st)
                (SpotifyArtist.combined_genres a)) as [m s]; simpl.
    by rewrite <-app_assoc.
Qed.

Lemma mergeArtists_inv sel artists :
  GenreInv (previouslySelectedGenres sel) (genresOf artists)
    (mainGenresMap (mergeArtists sel artists))
    (specificGenresMap (mergeArtists sel artists)).
Proof.
  unfold mergeArtists. rewrite artistLoop_unfold. simpl.
  apply (genreLoop_inv _ _ []), GenreInv_empty.
Qed.

Lemma mergeArtists_artists sel artists :
  artistsDone (mergeArtists sel artists) =
  (λ a, SpotifyArtist.with_checkedStr a
          (checkedStr (previouslySelectedArtists sel) (SpotifyArtist.id a)))
    <$> artists.
Proof. unfold mergeArtists. by rewrite artistLoop_unfold. Qed.

End merger_facts.

Section merged_output.
Context {constants : Constants}.

(** What the genre loop leaves in its two maps, read off the invariant. *)
Lemma GenreInv_values prev seen main specific :
  GenreInv prev seen main specific →
  (∀ e, e ∈ Map.values main →
        ∃ g, e = StatefulObject.Build (checkedStr prev g) g
             ∧ g ∈ seen ∧ g ∈ mainGenres)
  ∧ (∀ e, e ∈ Map.values specific →
          ∃ g, e = StatefulObject.Build (checkedStr prev g) g
               ∧ g ∈ seen ∧ g ∉ mainGenres)
  ∧ (∀ g, g ∈ seen →
          StatefulObject.Build (checkedStr prev g) g
          ∈ (if decide (g ∈ mainGenres) then Map.values main
             else Map.values specific))
  ∧ NoDup (StatefulObject.obj <$> (Map.values main ++ Map.values specific)).
Proof.
  intros [H1 H2 H3 H4 H5]. unfold Map.values. split_and!.
  - intros e ([k v] & -> & Hin)%list_elem_of_fmap. exists k.
    by destruct (H3 k v Hin) as (-> & ? & ?).
  - intros e ([k v] & -> & Hin)%list_elem_of_fmap. exists k.
    by destruct (H4 k v Hin) as (-> & ? & ?).
  - intros g Hg. specialize (H5 g Hg).
    destruct (decide (g ∈ mainGenres));
      apply list_elem_of_fmap in H5 as ([k v] & -> & Hin);
      apply list_elem_of_fmap; exists (k, v); (split; [|done]); simpl.
    + by destruct (H3 k v Hin) as (-> & _).
    + by destruct (H4 k v Hin) as (-> & _).
  - assert (StatefulObject.obj <$> main.*2 = main.*1) as Hm.
    { rewrite <-list_fmap_compose. apply list_fmap_ext.
      intros i [k v] Hin%list_elem_of_lookup_2; simpl.
      by destruct (H3 k v Hin) as (-> & _). }
    assert (StatefulObject.obj <$> specific.*2 = specific.*1) as Hs.
    { rewrite <-list_fmap_compose. apply list_fmap_ext.
      intros i [k v] Hin%list_elem_of_lookup_2; simpl.
      by destruct (H4 k v Hin) as (-> & _). }
    rewrite fmap_app, Hm, Hs. apply NoDup_app. split_and!; [done| |done].
    intros k ([k1 v1] & -> & Hin1)%list_elem_of_fmap
             ([k2 v2] & Hk & Hin2)%list_elem_of_fmap.
    simpl in Hk. subst k2.
    destruct (H3 k1 v1 Hin1) as (_ & _ & ?).
    by destruct (H4 k1 v2 Hin2) as (_ & _ & ?).
Qed.

Lemma filter_none {A : Type} (P : A → Prop) `{∀ x, Decision (P x)} (l : list A) :
  (∀ z, z ∈ l → ¬ P z) → filter P l = [].
Proof.
  induction l as [|y l IH]; intros Hl; [done|].
  rewrite filter_cons_False by (apply Hl; left).
  apply IH. intros z Hz. apply Hl. by right.
Qed.

(** In a list without two elements of the same key, the elements of a
    key that occurs are exactly one. *)
Lemma filter_key_NoDup {A B : Type} `{EqDecision B} (f : A → B) (l : list A) (x : A) :
  NoDup (f <$> l) → x ∈ l → filter (λ e, f e = f x) l = [x].
Proof.
  induction l as [|y l IH]; intros Hnd Hin; [by apply elem_of_nil in Hin|].
  rewrite fmap_cons in Hnd. apply NoDup_cons in Hnd as [Hy Hnd].
  apply elem_of_cons in Hin as [->|Hin].
  - rewrite filter_cons_True by done. f_equal.
    apply filter_none. intros z Hz Heq. apply Hy.
    rewrite <-Heq. apply list_elem_of_fmap. by exists z.
  - rewrite filter_cons_False; [by apply IH|].
    intros Heq. apply Hy. rewrite Heq. apply list_elem_of_fmap. by exists x.
Qed.

Lemma DaysInv_empty prev : DaysInv prev [] Map.empty.
Proof.
  split; unfold Map.empty.
  - intros k v Hin. by apply elem_of_nil in Hin.
  - intros d Hin. by apply elem_of_nil in Hin.
Qed.

Lemma dayStep_inv prev seen daysMap d :
  DaysInv prev seen daysMap → DaysInv prev (seen ++ [d]) (dayStep prev daysMap d).
Proof.
  intros [H1 H2]. unfold dayStep. split.
  - intros k v [[= -> ->]|[Hne Hin]]%Map_elem_of_set; simpl.
    + split_and!; [done..|]. apply elem_of_app. right.
      by apply list_elem_of_singleton.
    + destruct (H1 k v Hin) as (? & ? & ?). split_and!; [done..|].
      apply elem_of_app. by left.
  - intros d' Hd'. rewrite Map_set_keys.
    destruct (Map.has _ daysMap) eqn:Hhas.
    + apply elem_of_app in Hd' as [Hd'| ->%list_elem_of_singleton];
        [by apply H2|by apply Map_has_spec].
    + apply elem_of_app.
      apply elem_of_app in Hd' as [Hd'| ->%list_elem_of_singleton];
        [left; by apply H2|right; by apply list_elem_of_singleton].
Qed.

Lemma dayLoop_inv prev days seen daysMap :
  DaysInv prev seen daysMap →
  DaysInv prev (seen ++ days) (foldl (dayStep prev) daysMap days).
Proof.
  revert seen daysMap.
  induction days as [|d days IH]; intros seen daysMap Hinv; cbn [foldl].
  - by rewrite app_nil_r.
  - rewrite (cons_middle d), app_assoc. by apply IH, dayStep_inv.
Qed.

(** The day list of the page: every day of the lineup has an entry, and
    every entry carries the state of its own day number. *)
Lemma mergeDays_spec sel daysWithMetadata :
  (∀ d, d ∈ daysWithMetadata →
        ∃ e, e ∈ mergeDays sel daysWithMetadata
             ∧ LineupDay.number (StatefulObject.obj e) = LineupDay.number d)
  ∧ (∀ e, e ∈ mergeDays sel daysWithMetadata →
          StatefulObject.obj e ∈ daysWithMetadata
          ∧ StatefulObject.state e
            = checkedStr (previouslySelectedDays sel)
                (pretty (LineupDay.number (StatefulObject.obj e)))).
Proof.
  unfold mergeDays, sortedValues. rewrite sort_default_objects.
  destruct (dayLoop_inv (previouslySelectedDays sel) daysWithMetadata []
              Map.empty (DaysInv_empty _)) as [H1 H2].
  simpl in H1, H2. unfold Map.values. split.
  - intros d Hd. apply H2, list_elem_of_fmap in Hd as ([k v] & Hk & Hin).
    simpl in Hk. exists v. split; [apply list_elem_of_fmap; by exists (k, v)|].
    destruct (H1 k v Hin) as (Hk' & _). rewrite Hk' in Hk.
    by apply (inj pretty) in Hk.
  - intros e ([k v] & -> & Hin)%list_elem_of_fmap; simpl.
    destruct (H1 k v Hin) as (Hk & Hst & Hobj). by rewrite <-Hk.
Qed.

End merged_output.

(** ** [/customize] *)

Section customize_facts.
Context {constants : Constants} {redisHelper : RedisHelper} {platform : Platform}.

(** A rendered page is the view of the edition found, for the selection
    the session gives. *)
Lemma customize_render db req v :
  response (customize db req) = RenderCustomize v →
  let festival := cv_festival v in
  let queryYear := cv_festivalYear v in
  let loaded := loadSelection db req festival queryYear in
  v = customizeView loaded.2 festival queryYear loaded.1.1
  ∧ db_after (customize db req) = loaded.2
  ∧ console (customize db req) = loaded.1.2.
Proof.
  unfold customize.
  destruct (falsy (query req !! "festival") || falsy (query req !! "year"));
    [done|].
  destruct (findEdition _ _) as [festival|]; [|done].
  destruct (falsy (Some (Festival.name festival))); [done|].
  destruct (loadSelection db req festival _) as [[sel log] db'] eqn:Hload.
  simpl. intros [= <-]. simpl. by rewrite Hload.
Qed.

Lemma loadSelection_previous db req festival queryYear :
  let sel := (loadSelection db req festival queryYear).1.1 in
  let session := restoredSession db req festival queryYear in
  previouslySelectedArtists sel
  = previouslySelected SessionData.artistIdsStr session
  ∧ previouslySelectedGenres sel
    = previouslySelected SessionData.selectedGenresStr session
  ∧ previouslySelectedDays sel
    = previouslySelected SessionData.selectedDaysStr session.
Proof.
  unfold loadSelection.
  destruct (restoredSession db req festival queryYear) as [sd|]; [|done].
  unfold restoreSelection. by repeat case_decide.
Qed.

Lemma lookup_foldr_delete (h : gmap string string) (fields : list string) (f : string) :
  foldr delete h fields !! f = if decide (f ∈ fields) then None else h !! f.
Proof.
  induction fields as [|g fields IH]; simpl; [done|].
  destruct (decide (g = f)) as [->|Hne].
  - rewrite lookup_delete_eq. rewrite decide_True; [done|by left].
  - rewrite lookup_delete_ne by done. rewrite IH.
    destruct (decide (f ∈ fields)).
    + rewrite decide_True; [done|by right].
    + rewrite decide_False; [done|].
      intros [?|?]%elem_of_cons; [congruence|done].
Qed.

Lemma hdel_hgetall key fields (db : gmap string (gmap string string)) :
  Redis.hgetall key (Redis.hdel key fields db)
  = foldr delete (Redis.hgetall key db) fields.
Proof.
  unfold Redis.hgetall, Redis.hdel. destruct (db !! key) as [h|] eqn:Hkey.
  - case_decide as Hempty.
    + rewrite lookup_delete_eq. simpl in *. congruence.
    + by rewrite lookup_insert_eq.
  - rewrite Hkey. simpl. induction fields as [|f fields IH]; simpl; [done|].
    rewrite <-IH. symmetry. apply delete_empty.
Qed.

Lemma hdel_other key key' fields (db : gmap string (gmap string string)) :
  key' ≠ key → Redis.hdel key fields db !! key' = db !! key'.
Proof.
  intros Hne. unfold Redis.hdel. destruct (db !! key) as [h|]; [|done].
  case_decide.
  - by rewrite lookup_delete_ne.
  - by rewrite lookup_insert_ne.
Qed.

Lemma minimal_to_hash name display_name year :
  SessionData.to_hash (SessionData.minimal name display_name year)
  = <["festivalName" := name]>
      (<["festivalDisplayName" := display_name]>
         (<["festivalYear" := toString year]> ∅)).
Proof. reflexivity. Qed.

(** The stored hash after the reset: the old one without the stale
    fields, overwritten by the minimal record. *)
Lemma resetSession_hgetall db req festival queryYear :
  Redis.hgetall (sessionKey req) (resetSession db req festival queryYear)
  = SessionData.to_hash
      (SessionData.minimal (Festival.name festival)
         (Festival.display_name festival) queryYear)
    ∪ foldr delete (Redis.hgetall (sessionKey req) db) staleFields.
Proof.
  unfold resetSession. unfold Redis.hgetall at 1. unfold Redis.hmset.
  rewrite lookup_insert_eq. simpl. f_equal. apply hdel_hgetall.
Qed.

Lemma resetSession_other db req festival queryYear key :
  key ≠ sessionKey req →
  resetSession db req festival queryYear !! key = db !! key.
Proof.
  intros Hne. unfold resetSession, Redis.hmset.
  rewrite lookup_insert_ne by done. by apply hdel_other.
Qed.

(** [findEdition] returns an edition of the catalog with the name and the
    year asked for, and finds one whenever there is one. *)
Lemma findEdition_Some name year festival :
  findEdition name year = Some festival →
  festival ∈ supportedFestivals ∧ Festival.name festival = name
  ∧ ∃ y, year = Num y ∧ y ∈ Festival.years festival.
Proof.
  unfold findEdition. intros Hhead.
  assert (festival ∈ filter (λ x, Festival.name x = name
            ∧ includes_number (Festival.years x) year) supportedFestivals)
    as [[Hname Hyear] Hin]%list_elem_of_filter.
  { destruct (filter _ _) as [|f l]; simplify_eq/=. by left. }
  split_and!; [done..|]. destruct year as [y|]; [|done].
  exists y. split; [done|]. by apply bool_decide_unpack in Hyear.
Qed.

Lemma findEdition_None name year :
  findEdition name year = None ↔
  ∀ f, f ∈ supportedFestivals →
       ¬ (Festival.name f = name
          ∧ ∃ y, year = Num y ∧ y ∈ Festival.years f).
Proof.
  unfold findEdition. rewrite head_None. split.
  - intros Hnil f Hf [Hname (y & -> & Hy)].
    assert (f ∈ filter (λ x, Festival.name x = name
              ∧ includes_number (Festival.years x) (Num y)) supportedFestivals)
      as Hin; [|rewrite Hnil in Hin; by apply elem_of_nil in Hin].
    apply list_elem_of_filter. split; [|done]. split; [done|].
    simpl. by apply bool_decide_pack.
  - intros Hnone. apply filter_none. intros f Hf [Hname Hyear].
    apply (Hnone f Hf). split; [done|]. destruct year as [y|]; [|done].
    exists y. split; [done|]. by apply bool_decide_unpack in Hyear.
Qed.

End customize_facts.

(** ** The claims about [/customize] *)

Section customize_claims.
Context {constants : Constants} {redisHelper : RedisHelper} {platform : Platform}.

(** C1.  On every rendered [/customize] page each of the four selectable
    dimensions follows one rule against its own previously selected list
    of the restored session: the artists against [artistIdsStr] by artist
    id, the main and the specific genres against [selectedGenresStr] by
    genre string, the days against [selectedDaysStr] by day number as a
    string.  Without the list every item is ["checked"]; with it (even
    empty) an item is ["checked"] if its identifier is in the list and
    [""] otherwise.  Every artist, every genre tag and every day of the
    lineup is on the page. *)
Theorem customize_selection_rule db req v :
  response (customize db req) = RenderCustomize v →
  let festival := cv_festival v in
  let queryYear := cv_festivalYear v in
  let session := restoredSession db req festival queryYear in
  let db' := db_after (customize db req) in
  let artists := getArtistsForFestival db' (Festival.name festival) queryYear in
  let daysWithMetadata :=
    getLineupDayMetadata db' (Festival.name festival) queryYear
      <$> getLineupDays db' (Festival.name festival) queryYear in
  Forall2
    (λ a a',
       a' = SpotifyArtist.with_checkedStr a (SpotifyArtist.checkedStr a')
       ∧ StateFollows (previouslySelected SessionData.artistIdsStr session)
           (SpotifyArtist.id a) (SpotifyArtist.checkedStr a'))
    artists (cv_artists v)
  ∧ (∀ g, g ∈ genresOf artists → g ∈ mainGenres →
          ∃ e, e ∈ cv_mainGenres v ∧ StatefulObject.obj e = g)
  ∧ Forall
      (λ e, StatefulObject.obj e ∈ genresOf artists
            ∧ StatefulObject.obj e ∈ mainGenres
            ∧ StateFollows (previouslySelected SessionData.selectedGenresStr session)
                (StatefulObject.obj e) (StatefulObject.state e))
      (cv_mainGenres v)
  ∧ (∀ g, g ∈ genresOf artists → g ∉ mainGenres →
          ∃ e, e ∈ cv_specificGenres v ∧ StatefulObject.obj e = g)
  ∧ Forall
      (λ e, StatefulObject.obj e ∈ genresOf artists
            ∧ ¬ StatefulObject.obj e ∈ mainGenres
            ∧ StateFollows (previouslySelected SessionData.selectedGenresStr session)
                (StatefulObject.obj e) (StatefulObject.state e))
      (cv_specificGenres v)
  ∧ (∀ d, d ∈ daysWithMetadata →
          ∃ e, e ∈ cv_days v
               ∧ LineupDay.number (StatefulObject.obj e) = LineupDay.number d)
  ∧ Forall
      (λ e, StatefulObject.obj e ∈ daysWithMetadata
            ∧ StateFollows (previouslySelected SessionData.selectedDaysStr session)
                (pretty (LineupDay.number (StatefulObject.obj e)))
                (StatefulObject.state e))
      (cv_days v).
Proof.
  intros Hresp festival queryYear session db' artists daysWithMetadata.
  destruct (customize_render db req v Hresp) as (Hv & Hdb & _).
  destruct (loadSelection_previous db req festival queryYear)
    as (HA & HG & HD).
  fold festival queryYear in Hv, Hdb. fold session in HA, HG, HD.
  rewrite <-Hdb in Hv. fold db' in Hv.
  set (sel := (loadSelection db req festival queryYear).1.1) in *.
  assert (cv_artists v = artistsDone (mergeArtists sel artists)) as ->
    by (by rewrite Hv).
  assert (cv_mainGenres v = Map.values (mainGenresMap (mergeArtists sel artists)))
    as -> by (rewrite Hv; apply sort_default_objects).
  assert (cv_specificGenres v
          = Map.values (specificGenresMap (mergeArtists sel artists)))
    as -> by (rewrite Hv; apply sort_default_objects).
  assert (cv_days v = mergeDays sel daysWithMetadata) as -> by (by rewrite Hv).
  rewrite <-HA, <-HG, <-HD.
  destruct (GenreInv_values _ _ _ _ (mergeArtists_inv sel artists))
    as (Hmain & Hspec & Hseen & _).
  destruct (mergeDays_spec sel daysWithMetadata) as (Hdays & Hday).
  split_and!.
  - rewrite mergeArtists_artists. apply Forall2_fmap_r, Forall_Forall2_diag.
    apply Forall_forall. intros a _. split; [by destruct a|].
    apply checkedStr_follows.
  - intros g Hg Hm. specialize (Hseen g Hg). rewrite decide_True in Hseen by done.
    by eexists.
  - apply Forall_forall. intros e (g & -> & ? & ?)%Hmain. simpl.
    split_and!; [done..|]. apply checkedStr_follows.
  - intros g Hg Hm. specialize (Hseen g Hg). rewrite decide_False in Hseen by done.
    by eexists.
  - apply Forall_forall. intros e (g & -> & ? & ?)%Hspec. simpl.
    split_and!; [done..|]. apply checkedStr_follows.
  - done.
  - apply Forall_forall. intros e [Hobj ->]%Hday. split; [done|].
    apply checkedStr_follows.
Qed.

(** C4.  A genre tag that occurs among the artists' [combined_genres]
    (once or in several artists) has exactly one entry in the merged genre
    output; the entry is in [mainGenres] if the tag is a main genre and in
    [specificGenres] otherwise, and its state is computed against the one
    previously-selected-genres list.  The entry is there as soon as the
    artists up to the tag's first occurrence are merged, and the artists
    after them leave it as it is. *)
Theorem genre_merged_once (sel : Selection) (artists : list SpotifyArtist.t)
    (g : string) :
  g ∈ genresOf artists →
  let entry :=
    StatefulObject.Build (checkedStr (previouslySelectedGenres sel) g) g in
  filter (λ e, StatefulObject.obj e = g) (mergedGenres sel artists) = [entry]
  ∧ (entry ∈ sortedValues (mainGenresMap (mergeArtists sel artists))
     ↔ g ∈ mainGenres)
  ∧ (entry ∈ sortedValues (specificGenresMap (mergeArtists sel artists))
     ↔ g ∉ mainGenres)
  ∧ ∀ pre post, artists = pre ++ post → g ∈ genresOf pre →
      filter (λ e, StatefulObject.obj e = g) (mergedGenres sel pre)
      = filter (λ e, StatefulObject.obj e = g) (mergedGenres sel artists).
Proof.
  assert (∀ arts, g ∈ genresOf arts →
    let entry :=
      StatefulObject.Build (checkedStr (previouslySelectedGenres sel) g) g in
    filter (λ e, StatefulObject.obj e = g) (mergedGenres sel arts) = [entry]
    ∧ (entry ∈ sortedValues (mainGenresMap (mergeArtists sel arts))
       ↔ g ∈ mainGenres)
    ∧ (entry ∈ sortedValues (specificGenresMap (mergeArtists sel arts))
       ↔ g ∉ mainGenres)) as Hone.
  { intros arts Hg entry. unfold mergedGenres, sortedValues.
    rewrite !sort_default_objects.
    destruct (GenreInv_values _ _ _ _ (mergeArtists_inv sel arts))
      as (Hmain & Hspec & Hseen & Hnd).
    specialize (Hseen g Hg). fold entry in Hseen. split_and!.
    - apply (filter_key_NoDup StatefulObject.obj _ entry Hnd).
      apply elem_of_app. destruct (decide (g ∈ mainGenres)); [by left|by right].
    - split.
      + intros (g' & Heq & _ & ?)%Hmain. by injection Heq as _ ->.
      + intros Hm. by rewrite decide_True in Hseen.
    - split.
      + intros (g' & Heq & _ & ?)%Hspec. by injection Heq as _ ->.
      + intros Hm. by rewrite decide_False in Hseen. }
  intros Hg entry. destruct (Hone artists Hg) as (Hfilter & Hm & Hs).
  split_and!; [done..|].
  intros pre post -> Hpre. destruct (Hone pre Hpre) as (-> & _). by rewrite Hfilter.
Qed.

(** C7.  A valid [/customize] request for an edition that is not the one
    of the stored session (or without a stored session) leaves, under the
    visitor's key, none of the seven stale fields, the three fields of the
    minimal record with the new values, and every other field as it was;
    the other keys of the store are not touched. *)
Theorem customize_resets_session db req festival (name yearStr : string) :
  query req !! "festival" = Some name →
  name ≠ "" →
  query req !! "year" = Some yearStr →
  yearStr ≠ "" →
  findEdition name (parseInt10 yearStr) = Some festival →
  (∀ sessionData,
     getSessionData db (sessionUid req) = Some sessionData →
     ¬ (SessionData.festivalName sessionData = Festival.name festival
        ∧ SessionData.festivalYear sessionData = parseInt10 yearStr)) →
  let db' := db_after (customize db req) in
  let stored := Redis.hgetall (sessionKey req) db' in
  (∀ f, f ∈ ["tracksPerArtist"; "artistIdsStr"; "trackIdsStr"; "trackType";
             "playlistName"; "selectedDaysStr"; "selectedGenresStr"] →
        stored !! f = None)
  ∧ stored !! "festivalName" = Some (Festival.name festival)
  ∧ stored !! "festivalDisplayName" = Some (Festival.display_name festival)
  ∧ stored !! "festivalYear" = Some (toString (parseInt10 yearStr))
  ∧ (∀ f, f ∉ ["tracksPerArtist"; "artistIdsStr"; "trackIdsStr"; "trackType";
               "playlistName"; "selectedDaysStr"; "selectedGenresStr";
               "festivalName"; "festivalDisplayName"; "festivalYear"] →
          stored !! f = Redis.hgetall (sessionKey req) db !! f)
  ∧ (∀ key, key ≠ sessionKey req → db' !! key = db !! key)
  ∧ ∃ v, response (customize db req) = RenderCustomize v.
Proof.
  intros Hfestival Hname Hyear HyearStr Hfind Hmismatch db' stored.
  destruct (findEdition_Some _ _ _ Hfind) as (_ & Hfname & y & Hy & _).
  assert (restoredSession db req festival (parseInt10 yearStr) = None) as Hnone.
  { unfold restoredSession.
    destruct (getSessionData db (sessionUid req)) as [sd|] eqn:Hsd; [|done].
    destruct (bool_decide _ && strict_eq _ _) eqn:Hmatch; [|done].
    apply andb_true_iff in Hmatch as [Hn%bool_decide_eq_true Hyr].
    destruct (Hmismatch sd eq_refl). split; [done|].
    rewrite Hy in *. unfold strict_eq in Hyr.
    destruct (SessionData.festivalYear sd); [|done].
    apply bool_decide_eq_true in Hyr. by subst. }
  assert (customize db req
          = {| response :=
                 RenderCustomize
                   (customizeView
                      (resetSession db req festival (parseInt10 yearStr))
                      festival (parseInt10 yearStr) defaultSelection);
               db_after := resetSession db req festival (parseInt10 yearStr);
               console := [redis_print "OK"] |}) as Hrun.
  { unfold customize. rewrite Hfestival, Hyear. simpl.
    rewrite !bool_decide_eq_false_2 by done. simpl. rewrite Hfind.
    rewrite bool_decide_eq_false_2 by congruence.
    unfold loadSelection. by rewrite Hnone. }
  subst stored db'. rewrite Hrun. simpl.
  rewrite resetSession_hgetall, minimal_to_hash.
  split_and!.
  - intros f Hf. apply lookup_union_None. split.
    + repeat (apply elem_of_cons in Hf as [->|Hf]; [done|]).
      by apply elem_of_nil in Hf.
    + rewrite lookup_foldr_delete. by rewrite decide_True.
  - by rewrite lookup_union_l'.
  - by rewrite lookup_union_l'.
  - by rewrite lookup_union_l'.
  - intros f Hf. rewrite lookup_union_r.
    + rewrite lookup_foldr_delete, decide_False; [done|].
      intros Hin. apply Hf.
      change (f ∈ staleFields ++ ["festivalName"; "festivalDisplayName";
                                  "festivalYear"]).
      apply elem_of_app. by left.
    + rewrite !lookup_insert_ne; [done|intros <-; apply Hf; repeat constructor..].
  - intros key Hkey. by apply resetSession_other.
  - by eexists.
Qed.

(** C8.  A [/customize] request without a festival or without a year
    (absent or empty), or with a festival and year that no edition of the
    catalog has, is answered with status 400 and one of two short
    messages; the store stays as it was and nothing is logged. *)
Theorem customize_bad_request db req :
  (query req !! "festival" = None ∨ query req !! "festival" = Some ""
   ∨ query req !! "year" = None ∨ query req !! "year" = Some ""
   ∨ ∀ f, f ∈ supportedFestivals →
          ¬ (Some (Festival.name f) = query req !! "festival"
             ∧ ∃ y, parseInt10 (default "" (query req !! "year")) = Num y
                    ∧ y ∈ Festival.years f)) →
  (customize db req = reply db (Send 400 "You need to choose a festival first.")
   ∨ customize db req = reply db (Send 400 "Invalid query params"))
  ∧ db_after (customize db req) = db.
Proof.
  intros Hbad.
  assert (customize db req
            = reply db (Send 400 "You need to choose a festival first.")
          ∨ customize db req = reply db (Send 400 "Invalid query params"))
    as Hrun; [|split; [done|by destruct Hrun as [-> | ->]]].
  unfold customize.
  destruct (falsy (query req !! "festival") || falsy (query req !! "year"))
    eqn:Hfalsy; [by left|right].
  apply orb_false_iff in Hfalsy as [Hf Hy].
  destruct (query req !! "festival") as [name|] eqn:Hqf; [|done].
  destruct (query req !! "year") as [yearStr|] eqn:Hqy; [|done].
  simpl in Hf, Hy. apply bool_decide_eq_false in Hf, Hy.
  destruct Hbad as [?|[[= ?]|[?|[[= ?]|Hnone]]]]; [done..|]. simpl in *.
  assert (findEdition name (parseInt10 yearStr) = None) as ->; [|done].
  apply findEdition_None. intros f Hin [Hfname Hyr].
  apply (Hnone f Hin). split; [by rewrite Hfname|done].
Qed.

End customize_claims.

(** ** [/personalized-lineup] and [/generate-playlist-success] *)

Section lineup_facts.
Context {constants : Constants} {redisHelper : RedisHelper} {platform : Platform}.

(** The track loop is a map over the filtered artists: every artist is
    fetched with the one strategy of the session, the ids are appended in
    that order, and the warning is printed once per artist. *)
Lemma resolveLoop_unfold db sessionData artists st :
  let trackType := SessionData.trackType sessionData in
  let fetch a :=
    fetchWith (strategyOf trackType).1 db a
      (SessionData.tracksPerArtist sessionData) in
  foldl (resolveStep db sessionData) st artists =
  {| artistsWithTracks :=
       artistsWithTracks st
       ++ ((λ a, {| act_artist := a; act_tracks := fetch a |}) <$> artists);
     trackIds := trackIds st ++ (artists ≫= λ a, fetchedIds (fetch a));
     warnings :=
       warnings st
       ++ (if (strategyOf trackType).2
           then replicate (length artists) (trackTypeWarning trackType)
           else []) |}.
Proof.
  intros trackType fetch. revert st.
  induction artists as [|a artists IH]; intros st; cbn [foldl].
  - simpl. rewrite !app_nil_r. destruct (strategyOf trackType).2; simpl;
      [rewrite app_nil_r|rewrite app_nil_r]; by destruct st.
  - rewrite IH. unfold resolveStep. fold trackType.
    destruct (strategyOf trackType) as [strategy warn] eqn:Hs. simpl.
    subst fetch. simpl. f_equal.
    + by rewrite <-app_assoc.
    + rewrite app_assoc. f_equal.
      destruct (fetchWith strategy db a _) as [tracks|]; simpl;
        [|by rewrite app_nil_r].
      destruct tracks; simpl; [by rewrite app_nil_r|done].
    + destruct warn; [by rewrite <-app_assoc|done].
Qed.

Lemma bind_fmap {A B C : Type} (f : A → B) (g : B → list C) (l : list A) :
  (f <$> l) ≫= g = l ≫= λ a, g (f a).
Proof. induction l as [|a l IH]; csimpl; [done|]. by rewrite IH. Qed.

Lemma with_trackIdsStr_to_hash sessionData v :
  SessionData.to_hash (SessionData.with_trackIdsStr sessionData v)
    !! "trackIdsStr" = Some v.
Proof.
  destruct sessionData as [? ? ? [?|] [?|] [?|] [?|] [?|] ? [?|] [?|]];
    reflexivity.
Qed.

(** With a session that has [artistIdsStr] the handler renders. *)
Lemma personalizedLineup_render db req sessionData artistIdsStr :
  getSessionData db (sessionUid req) = Some sessionData →
  SessionData.artistIdsStr sessionData = Some artistIdsStr →
  let filteredArtists :=
    filterArtists (split "," artistIdsStr)
      (getArtistsForFestival db (SessionData.festivalName sessionData)
         (SessionData.festivalYear sessionData)) in
  let resolved := resolveTracks db sessionData filteredArtists in
  ∃ v, response (personalizedLineup db req) = RenderLineup v
       ∧ lv_acts v = artistsWithTracks resolved
       ∧ console (personalizedLineup db req) = warnings resolved
       ∧ db_after (personalizedLineup db req)
         = Redis.hmset (sessionKey req)
             (SessionData.to_hash
                (SessionData.with_trackIdsStr sessionData
                   (join "," (trackIds resolved)))) db.
Proof.
  intros Hsd Hids filteredArtists resolved. unfold personalizedLineup.
  rewrite Hsd, Hids. simpl. by eexists.
Qed.

Lemma filterArtists_split artistIdsStr artists :
  filterArtists (split "," artistIdsStr) artists
  = filter (λ x, SpotifyArtist.id x ∈ split "," artistIdsStr) artists.
Proof.
  unfold filterArtists.
  pose proof (split_length "," artistIdsStr) as Hlen.
  apply Nat.ltb_lt in Hlen as ->.
  apply list_filter_iff. intros x. unfold includes.
  by rewrite bool_decide_spec.
Qed.

Lemma findEdition_is_Some name year :
  is_Some (findEdition name year) ↔
  ∃ f, f ∈ supportedFestivals ∧ Festival.name f = name
       ∧ ∃ y, year = Num y ∧ y ∈ Festival.years f.
Proof.
  split.
  - intros [f Hf]. exists f. by apply findEdition_Some.
  - intros (f & Hin & Hname & Hyear).
    destruct (findEdition name year) eqn:Hfind; [by eexists|].
    destruct (proj1 (findEdition_None name year) Hfind f Hin). done.
Qed.

End lineup_facts.

Section lineup_claims.
Context {constants : Constants} {redisHelper : RedisHelper} {platform : Platform}.

(** C2.  With a session that holds [artistIdsStr], [/personalized-lineup]
    renders, and every filtered artist is paired with the tracks of the
    strategy that [trackType] selects: ["recent"] the newest tracks,
    ["top"] the top tracks, ["setlist"] the setlist tracks, without a
    warning; any other value, also a missing or empty one, the top
    tracks, with one warning per artist. *)
Theorem lineup_strategy db req sessionData artistIdsStr :
  getSessionData db (sessionUid req) = Some sessionData →
  SessionData.artistIdsStr sessionData = Some artistIdsStr →
  let trackType := SessionData.trackType sessionData in
  let n := SessionData.tracksPerArtist sessionData in
  let filteredArtists :=
    filterArtists (split "," artistIdsStr)
      (getArtistsForFestival db (SessionData.festivalName sessionData)
         (SessionData.festivalYear sessionData)) in
  let out := personalizedLineup db req in
  let actsWith fetch :=
    (λ a, {| act_artist := a; act_tracks := fetch db a n |})
      <$> filteredArtists in
  ∃ v, response out = RenderLineup v
    ∧ (trackType = Some "recent" →
       lv_acts v = actsWith getNewestTracksForArtist ∧ console out = [])
    ∧ (trackType = Some "top" →
       lv_acts v = actsWith getTopTracksForArtist ∧ console out = [])
    ∧ (trackType = Some "setlist" →
       lv_acts v = actsWith getSetlistTracksForArtist ∧ console out = [])
    ∧ (trackType ≠ Some "recent" → trackType ≠ Some "top" →
       trackType ≠ Some "setlist" →
       lv_acts v = actsWith getTopTracksForArtist
       ∧ console out
         = replicate (length filteredArtists) (trackTypeWarning trackType)).
Proof.
  intros Hsd Hids trackType n filteredArtists out actsWith.
  destruct (personalizedLineup_render db req sessionData artistIdsStr Hsd Hids)
    as (v & Hv & Hacts & Hlog & _).
  fold filteredArtists out in Hv, Hacts, Hlog.
  unfold resolveTracks in Hacts, Hlog.
  rewrite resolveLoop_unfold in Hacts, Hlog. simpl in Hacts, Hlog.
  fold trackType n in Hacts, Hlog.
  exists v. split; [done|]. rewrite Hacts, Hlog. unfold strategyOf.
  split_and!.
  - intros ->. by rewrite decide_True.
  - intros ->. rewrite decide_False by done. by rewrite decide_True.
  - intros ->. rewrite !decide_False by done. by rewrite decide_True.
  - intros ???. by rewrite !decide_False.
Qed.

(** C3.  After [/personalized-lineup] has rendered, the session field
    [trackIdsStr] holds the comma-join of the ids of the fetched tracks:
    the acts are the filtered artists in their order, and the ids follow
    the acts and, within an act, its track list. *)
Theorem lineup_trackIdsStr db req sessionData artistIdsStr :
  getSessionData db (sessionUid req) = Some sessionData →
  SessionData.artistIdsStr sessionData = Some artistIdsStr →
  let filteredArtists :=
    filterArtists (split "," artistIdsStr)
      (getArtistsForFestival db (SessionData.festivalName sessionData)
         (SessionData.festivalYear sessionData)) in
  let out := personalizedLineup db req in
  ∃ v, response out = RenderLineup v
    ∧ act_artist <$> lv_acts v = filteredArtists
    ∧ Redis.hgetall (sessionKey req) (db_after out) !! "trackIdsStr"
      = Some (join "," (lv_acts v ≫= λ act, fetchedIds (act_tracks act))).
Proof.
  intros Hsd Hids filteredArtists out.
  destruct (personalizedLineup_render db req sessionData artistIdsStr Hsd Hids)
    as (v & Hv & Hacts & _ & Hdb).
  fold filteredArtists out in Hv, Hacts, Hdb.
  unfold resolveTracks in Hacts, Hdb.
  rewrite resolveLoop_unfold in Hacts, Hdb. simpl in Hacts, Hdb.
  exists v. split; [done|]. rewrite Hacts, Hdb. split.
  - rewrite <-list_fmap_compose. apply list_fmap_id.
  - unfold Redis.hgetall, Redis.hmset. rewrite lookup_insert_eq. simpl.
    erewrite lookup_union_Some_l by apply with_trackIdsStr_to_hash.
    by rewrite bind_fmap.
Qed.

(** C5, on the code.  With a session whose [artistIdsStr] is absent the
    handler throws at [.split] and writes nothing.  With the empty string
    the chosen list is [[""]], not the empty list, and the filtered
    artists are those whose id is the empty string. *)
Theorem lineup_without_artistIds db req sessionData :
  getSessionData db (sessionUid req) = Some sessionData →
  (SessionData.artistIdsStr sessionData = None →
   personalizedLineup db req = reply db (Throw TypeError))
  ∧ (SessionData.artistIdsStr sessionData = Some "" →
     split "," "" = [""]
     ∧ ∃ v, response (personalizedLineup db req) = RenderLineup v
            ∧ act_artist <$> lv_acts v
              = filter (λ a, SpotifyArtist.id a = "")
                  (getArtistsForFestival db
                     (SessionData.festivalName sessionData)
                     (SessionData.festivalYear sessionData))).
Proof.
  intros Hsd. split.
  - intros Hids. unfold personalizedLineup. by rewrite Hsd, Hids.
  - intros Hids. split; [done|].
    destruct (personalizedLineup_render db req sessionData "" Hsd Hids)
      as (v & Hv & Hacts & _).
    exists v. split; [done|]. rewrite Hacts. unfold resolveTracks.
    rewrite resolveLoop_unfold. simpl. rewrite <-list_fmap_compose.
    change (split "," "") with [""]. rewrite list_fmap_id.
    rewrite (filterArtists_split ""). apply list_filter_iff. intros a. simpl.
    by rewrite list_elem_of_singleton.
Qed.

(** C9.  Without stored session data [/personalized-lineup] answers 400
    with its message and [/generate-playlist-success] answers 403 with
    its own; neither renders, writes or logs. *)
Theorem no_session_guard db req :
  getSessionData db (sessionUid req) = None →
  personalizedLineup db req
  = reply db
      (Send 400
         "This url only accessible after generating a lineup from the customize page.")
  ∧ generatePlaylistSuccess db req
    = reply db
        (Send 403 "This url only accessible after generating Spotify playlist.").
Proof.
  intros Hsd. unfold personalizedLineup, generatePlaylistSuccess.
  by rewrite Hsd.
Qed.

(** C10.  With a stored session, [/generate-playlist-success] renders
    exactly when some edition of the catalog has the session's festival
    name and year; when none has, the lookup finds nothing and the handler
    throws instead of answering with a status. *)
Theorem success_needs_edition db req sessionData :
  getSessionData db (sessionUid req) = Some sessionData →
  let name := SessionData.festivalName sessionData in
  let year := SessionData.festivalYear sessionData in
  let matches f :=
    Festival.name f = name ∧ ∃ y, year = Num y ∧ y ∈ Festival.years f in
  ((∃ v, response (generatePlaylistSuccess db req) = RenderSuccess v)
   ↔ ∃ f, f ∈ supportedFestivals ∧ matches f)
  ∧ ((∀ f, f ∈ supportedFestivals → ¬ matches f) →
     findEdition name year = None
     ∧ generatePlaylistSuccess db req = reply db (Throw TypeError)).
Proof.
  intros Hsd name year matches. unfold generatePlaylistSuccess.
  rewrite Hsd. fold name year. split.
  - pose proof (findEdition_is_Some name year) as Hfound.
    destruct (findEdition name year) as [f|]; simpl.
    + split; [intros _; by apply Hfound|intros _; by eexists].
    + split; [by intros [v ?]|].
      intros Hex. apply Hfound in Hex. by destruct Hex.
  - intros Hnone. apply findEdition_None in Hnone. by rewrite Hnone.
Qed.

End lineup_claims.

(** ** [/]: the dropdown *)

Lemma StronglySorted_lookup {A : Type} (R : relation A) (l : list A)
    (i j : nat) (x y : A) :
  StronglySorted R l → l !! i = Some x → l !! j = Some y → (i < j)%nat → R x y.
Proof.
  intros Hsorted Hi Hj Hlt.
  rewrite <-(take_drop_middle l j y Hj) in Hsorted.
  apply (StronglySorted_app_1_elem_of _ _ _ x y Hsorted); [|by left].
  apply list_elem_of_lookup. exists i. by rewrite lookup_take_lt by lia.
Qed.

(** A loop that pushes [f x] for the [x] that pass a test appends the
    images of the filtered list. *)
Lemma foldl_push_filter {A B : Type} (p : A → bool) (f : A → B)
    (acc : list B) (l : list A) :
  foldl (λ acc x, if p x then acc ++ [f x] else acc) acc l
  = acc ++ (f <$> filter (λ x, p x) l).
Proof.
  revert acc. induction l as [|x l IH]; intros acc; simpl.
  - by rewrite app_nil_r.
  - rewrite IH. destruct (p x) eqn:Hp.
    + rewrite filter_cons_True by (simpl; by rewrite Hp).
      simpl. by rewrite <-app_assoc.
    + rewrite filter_cons_False; [done|].
      intros Hpx%Is_true_true. simpl in Hpx. congruence.
Qed.

Section home_facts.
Context {constants : Constants} {redisHelper : RedisHelper} {platform : Platform}.

(** The array before the sort: the catalog, then the entries of the
    regions that some festival is in, in the order of [regions]. *)
Lemma withRegionEntries_eq :
  withRegionEntries
  = supportedFestivals
    ++ (regionEntry
          <$> filter (λ r, Region.name r ∈ Festival.region <$> supportedFestivals)
                regions).
Proof.
  unfold withRegionEntries. rewrite foldl_push_filter. do 2 f_equal.
  apply list_filter_iff. intros r. unfold includes.
  by rewrite bool_decide_spec, elem_of_distinct.
Qed.

Context {collation : Collation}.

Lemma compareFestivals_antisym x y :
  compareFestivals y x = CompOpp (compareFestivals x y).
Proof.
  unfold compareFestivals.
  rewrite (localeCompare_antisym (Festival.region x) (Festival.region y)).
  destruct (localeCompare (Festival.region x) (Festival.region y)); simpl;
    [apply localeCompare_antisym|done..].
Qed.

Lemma compareFestivals_order x y :
  sort_le compareFestivals x y ↔ dropdownOrder x y.
Proof.
  unfold sort_le, compareFestivals, dropdownOrder.
  destruct (localeCompare (Festival.region x) (Festival.region y));
    intuition congruence.
Qed.

Lemma dropdownOrder_trans x y z :
  dropdownOrder x y → dropdownOrder y z → dropdownOrder x z.
Proof.
  pose proof localeCompare_antisym as Hanti.
  pose proof localeCompare_trans as Htrans.
  unfold dropdownOrder. intros [Hxy|[Hxy Hnxy]] [Hyz|[Hyz Hnyz]].
  - left. apply (cmp_Lt_le _ Hanti Htrans _ _ _ Hxy). congruence.
  - left. apply (cmp_Lt_le _ Hanti Htrans _ _ _ Hxy). congruence.
  - left. apply (cmp_le_Lt _ Hanti Htrans _ (Festival.region y)); congruence.
  - right. split; [by apply (cmp_Eq_Eq _ Hanti Htrans _ _ _ Hxy)|].
    by apply (Htrans _ (Festival.name y)).
Qed.

Lemma sortedFestivals_sorted : StronglySorted dropdownOrder sortedFestivals.
Proof.
  unfold sortedFestivals.
  eapply (Sorted.StronglySorted_ind
            (λ l, StronglySorted dropdownOrder l)).
  - constructor.
  - intros a l _ IH Ha. constructor; [done|].
    eapply Forall_impl; [exact Ha|]. intros b. apply compareFestivals_order.
  - apply sort_sorted.
    + apply compareFestivals_antisym.
    + intros x y z. fold (sort_le compareFestivals x y).
      fold (sort_le compareFestivals y z). fold (sort_le compareFestivals x z).
      rewrite !compareFestivals_order. apply dropdownOrder_trans.
Qed.

End home_facts.

Section home_claims.
Context {constants : Constants} {redisHelper : RedisHelper} {platform : Platform}.
Context {collation : Collation}.

(** C6.  The dropdown of the home page holds the catalog entries and, for
    every region of [regions] that some festival is in, one entry of that
    region with the empty name; it is ordered by region code and, within a
    region, by festival name; and an entry with the empty name stands
    before every entry of its region that has a name. *)
Theorem home_dropdown_order db req :
  ∃ v, response (home db req) = RenderHome v ∧
    let dropdown := home_supportedFestivals v in
    dropdown ≡ₚ
      supportedFestivals
      ++ ((λ r, {| Festival.name := "";
                   Festival.display_name := Region.display_name r;
                   Festival.region := Region.name r;
                   Festival.years := [] |})
            <$> filter (λ r, Region.name r ∈ Festival.region <$> supportedFestivals)
                  regions)
    ∧ StronglySorted dropdownOrder dropdown
    ∧ ∀ (i j : nat) (s f : Festival.t),
        dropdown !! i = Some s → dropdown !! j = Some f →
        Festival.region s = Festival.region f →
        Festival.name s = "" → Festival.name f ≠ "" →
        (i < j)%nat.
Proof.
  eexists. split; [reflexivity|]. simpl. split_and!.
  - unfold sortedFestivals. by rewrite sort_perm, withRegionEntries_eq.
  - apply sortedFestivals_sorted.
  - intros i j s f Hi Hj Hregion Hs Hf.
    destruct (decide (i < j)%nat) as [|Hge]; [done|exfalso].
    destruct (decide (i = j)) as [->|Hne].
    { rewrite Hi in Hj. injection Hj as ->. done. }
    assert (j < i)%nat as Hlt by lia.
    pose proof (StronglySorted_lookup _ _ _ _ _ _
                  sortedFestivals_sorted Hj Hi Hlt) as Hord.
    unfold dropdownOrder in Hord. rewrite Hregion, Hs in Hord.
    rewrite (cmp_refl _ localeCompare_antisym) in Hord.
    destruct Hord as [?|[_ Hname]]; [done|]. apply Hname.
    by rewrite localeCompare_antisym, localeCompare_empty.
Qed.

End home_claims.

(** ** The claims on the example installation *)

Module ExampleFacts.
Import Example.

(** Code-unit order is a collation. *)
Lemma collation : Collation.
Proof.
  split; simpl.
  - intros x y. apply String.compare_antisym.
  - intros x y z Hxy Hyz.
    assert (String.le x z) as Hxz.
    { trans y; unfold String.le, String.leb.
      - by destruct (String.compare x y).
      - by destruct (String.compare y z). }
    unfold String.le, String.leb in Hxz. by destruct (String.compare x z).
  - intros [|c s] Hs; done.
Qed.

(** The built-ins on the strings the handlers meet. *)
Example split_examples :
  split "," "" = [""]
  ∧ split "," "a3,a1" = ["a3"; "a1"]
  ∧ split "," "a,,b" = ["a"; ""; "b"]
  ∧ join "," ["a3"; "a1"] = "a3,a1"
  ∧ join "," [] = "".
Proof. repeat split. Qed.

(** The no-break space before the year is skipped, as every white space
    is; the zero-width space U+200B is none.  Beyond 2^53 the value is
    the nearest double. *)
Example parseInt10_white_space_examples :
  parseInt10 (String "194" (String "160" "2024")) = Num 2024
  ∧ parseInt10 (String "239" (String "187" (String "191" " 2024"))) = Num 2024
  ∧ parseInt10 (String "226" (String "128" (String "168" "2024"))) = Num 2024
  ∧ parseInt10 (String "226" (String "128" (String "139" "2024"))) = NaN.
Proof. repeat split. Qed.

Example parseInt10_rounding_examples :
  parseInt10 "9007199254740992" = Num 9007199254740992
  ∧ parseInt10 "9007199254740993" = Num 9007199254740992
  ∧ parseInt10 "9007199254740995" = Num 9007199254740996
  ∧ parseInt10 "-9007199254740993" = Num (-9007199254740992)
  ∧ parseInt10 "18446744073709551615" = Num 18446744073709551616.
Proof. repeat split. Qed.

Example parseInt10_examples :
  parseInt10 "2024" = Num 2024
  ∧ parseInt10 " 12px" = Num 12
  ∧ parseInt10 "-7" = Num (-7)
  ∧ parseInt10 "abc" = NaN
  ∧ parseInt10 "" = NaN.
Proof. repeat split. Qed.

(** The dropdown: the entry of a region, then its festivals by name; the
    region without a festival has no entry. *)
Example dropdown_example :
  (λ f, (Festival.region f, Festival.name f)) <$> sortedFestivals
  = [("eu", ""); ("eu", "Glastonbury");
     ("us", ""); ("us", "Bonnaroo"); ("us", "Coachella")].
Proof. reflexivity. Qed.

(** The first visit of [/customize?festival=Coachella&year=2024]: three
    tracks per artist, top tracks, and everything checked. *)
Example first_visit_example :
  ∃ v, response (customize ∅ customizeCoachella) = RenderCustomize v
    ∧ cv_tracksPerArtist v = Num 3
    ∧ cv_topTracksCheckedStr v = "checked"
    ∧ SpotifyArtist.checkedStr <$> cv_artists v
      = ["checked"; "checked"; "checked"]
    ∧ cv_mainGenres v
      = [StatefulObject.Build "checked" "rock";
         StatefulObject.Build "checked" "pop"]
    ∧ cv_specificGenres v
      = [StatefulObject.Build "checked" "indie";
         StatefulObject.Build "checked" "techno"]
    ∧ StatefulObject.state <$> cv_days v = ["checked"; "checked"; "checked"].
Proof. eexists. split; [vm_compute; reflexivity|]. repeat split. Qed.

(** The page of the saved Bonnaroo selection: the artists a3 and a1, the
    genres rock and techno, the day 2. *)
Example restored_visit_example :
  SpotifyArtist.checkedStr <$> cv_artists bonnarooPage = ["checked"; ""; "checked"]
  ∧ cv_mainGenres bonnarooPage
    = [StatefulObject.Build "checked" "rock"; StatefulObject.Build "" "pop"]
  ∧ cv_specificGenres bonnarooPage
    = [StatefulObject.Build "" "indie"; StatefulObject.Build "checked" "techno"]
  ∧ StatefulObject.state <$> cv_days bonnarooPage = [""; "checked"; ""]
  ∧ cv_tracksPerArtist bonnarooPage = Num 2.
Proof. vm_compute. repeat split. Qed.

(** [/customize?festival=Bonnaroo&year=2024] with the saved selection of
    day 2: the page follows the rule on its days. *)
Lemma customize_selection_rule_witness :
  response (customize bonnarooSession customizeBonnaroo)
  = RenderCustomize bonnarooPage
  ∧ Forall
      (λ e, StatefulObject.obj e
            ∈ [LineupDay.Build 1 "day"; LineupDay.Build 2 "day";
               LineupDay.Build 3 "day"]
            ∧ StateFollows (Some ["2"])
                (pretty (LineupDay.number (StatefulObject.obj e)))
                (StatefulObject.state e))
      (cv_days bonnarooPage).
Proof.
  assert (response (customize bonnarooSession customizeBonnaroo)
          = RenderCustomize bonnarooPage) as Hpage
    by (vm_compute; reflexivity).
  split; [exact Hpage|].
  destruct (customize_selection_rule bonnarooSession customizeBonnaroo
              bonnarooPage Hpage) as (_ & _ & _ & _ & _ & _ & Hdays).
  exact Hdays.
Defined.

(** ["rock"] is a tag of the first and of the second act, and is listed
    once. *)
Lemma genre_merged_once_witness :
  "rock" ∈ genresOf lineup
  ∧ filter (λ e, StatefulObject.obj e = "rock")
      (mergedGenres (restoreSelection bonnarooData).1 lineup)
    = [StatefulObject.Build "checked" "rock"].
Proof.
  assert ("rock" ∈ genresOf lineup) as Hrock by (vm_compute; left).
  split; [exact Hrock|].
  destruct (genre_merged_once (restoreSelection bonnarooData).1 lineup "rock"
              Hrock) as (Hone & _).
  exact Hone.
Defined.

(** The visitor with the Bonnaroo session opens the Coachella page: the
    saved track type is gone, the playlist url stays. *)
Lemma customize_resets_session_witness :
  findEdition "Coachella" (parseInt10 "2024") = Some coachella
  ∧ getSessionData bonnarooSession "visitor" = Some bonnarooData
  ∧ let stored :=
      Redis.hgetall (sessionKey customizeCoachella)
        (db_after (customize bonnarooSession customizeCoachella)) in
    stored !! "trackType" = None
    ∧ stored !! "festivalName" = Some "Coachella".
Proof.
  assert (findEdition "Coachella" (parseInt10 "2024") = Some coachella)
    as Hfind by (vm_compute; reflexivity).
  assert (getSessionData bonnarooSession "visitor" = Some bonnarooData)
    as Hsd by (vm_compute; reflexivity).
  split; [exact Hfind|]. split; [exact Hsd|].
  destruct (customize_resets_session bonnarooSession customizeCoachella
              coachella "Coachella" "2024")
    as (Hstale & Hname & _); [reflexivity|done|reflexivity|done|exact Hfind| |].
  - intros sd Hsd' [Hname _]. change (sessionUid customizeCoachella)
      with "visitor" in Hsd'. rewrite Hsd in Hsd'. injection Hsd' as <-.
    discriminate Hname.
  - split; [|exact Hname]. apply Hstale. do 3 right. left.
Defined.

(** [/customize?festival=Unknown&year=2024] *)
Lemma customize_bad_request_witness :
  (∀ f, f ∈ supportedFestivals → Festival.name f ≠ "Unknown")
  ∧ (customize ∅ customizeUnknown
       = reply ∅ (Send 400 "You need to choose a festival first.")
     ∨ customize ∅ customizeUnknown = reply ∅ (Send 400 "Invalid query params"))
  ∧ db_after (customize ∅ customizeUnknown) = ∅.
Proof.
  assert (∀ f, f ∈ supportedFestivals → Festival.name f ≠ "Unknown") as Hnone.
  { intros f Hf. simpl in Hf.
    repeat (apply elem_of_cons in Hf as [->|Hf]; [done|]).
    by apply elem_of_nil in Hf. }
  split; [exact Hnone|].
  apply (customize_bad_request ∅ customizeUnknown).
  do 4 right. intros f Hf [Hname _]. apply (Hnone f Hf).
  change (query customizeUnknown !! "festival") with (Some "Unknown") in Hname.
  by injection Hname.
Defined.

(** The Bonnaroo session has the track type ["acoustic"]: two artists are
    chosen, both get their top tracks, and the warning is printed twice. *)
Lemma lineup_strategy_witness :
  getSessionData bonnarooSession "visitor" = Some bonnarooData
  ∧ console (personalizedLineup bonnarooSession plain)
    = replicate 2 (trackTypeWarning (Some "acoustic")).
Proof.
  assert (getSessionData bonnarooSession "visitor" = Some bonnarooData)
    as Hsd by (vm_compute; reflexivity).
  split; [exact Hsd|].
  destruct (lineup_strategy bonnarooSession plain bonnarooData "a3,a1" Hsd
              eq_refl) as (v & _ & _ & _ & _ & Hother).
  destruct Hother as [_ Hlog]; [done..|]. exact Hlog.
Defined.

Lemma lineup_trackIdsStr_witness :
  getSessionData bonnarooSession "visitor" = Some bonnarooData
  ∧ ∃ v, response (personalizedLineup bonnarooSession plain) = RenderLineup v
       ∧ Redis.hgetall (sessionKey plain)
           (db_after (personalizedLineup bonnarooSession plain))
           !! "trackIdsStr"
         = Some (join "," (lv_acts v ≫= λ act, fetchedIds (act_tracks act))).
Proof.
  assert (getSessionData bonnarooSession "visitor" = Some bonnarooData)
    as Hsd by (vm_compute; reflexivity).
  split; [exact Hsd|].
  destruct (lineup_trackIdsStr bonnarooSession plain bonnarooData "a3,a1" Hsd
              eq_refl) as (v & Hv & _ & Hids).
  exists v. split; [exact Hv|exact Hids].
Defined.

(** Straight from [/customize] to [/personalized-lineup]: the session has
    no [artistIdsStr], and the handler throws. *)
Lemma lineup_without_artistIds_witness :
  getSessionData freshSession "visitor" = Some freshData
  ∧ personalizedLineup freshSession plain = reply freshSession (Throw TypeError).
Proof.
  assert (getSessionData freshSession "visitor" = Some freshData)
    as Hsd by (vm_compute; reflexivity).
  split; [exact Hsd|].
  destruct (lineup_without_artistIds freshSession plain freshData Hsd)
    as [Habsent _].
  exact (Habsent eq_refl).
Defined.

Lemma no_session_guard_witness :
  getSessionData ∅ "visitor" = None
  ∧ personalizedLineup ∅ plain
    = reply ∅
        (Send 400
           "This url only accessible after generating a lineup from the customize page.")
  ∧ generatePlaylistSuccess ∅ plain
    = reply ∅
        (Send 403 "This url only accessible after generating Spotify playlist.").
Proof.
  assert (getSessionData ∅ "visitor" = None) as Hsd by (vm_compute; reflexivity).
  split; [exact Hsd|]. exact (no_session_guard ∅ plain Hsd).
Defined.

(** A session for Coachella 1999, which the catalog does not have. *)
Lemma success_needs_edition_witness :
  getSessionData strangerSession "visitor" = Some strangerData
  ∧ generatePlaylistSuccess strangerSession plain
    = reply strangerSession (Throw TypeError).
Proof.
  assert (getSessionData strangerSession "visitor" = Some strangerData)
    as Hsd by (vm_compute; reflexivity).
  split; [exact Hsd|].
  destruct (success_needs_edition strangerSession plain strangerData Hsd)
    as [_ Hthrow].
  apply Hthrow. intros f Hf [_ (y & [= <-] & Hy)]. simpl in Hf.
  repeat (apply elem_of_cons in Hf as [->|Hf];
          [simpl in Hy;
           repeat (apply elem_of_cons in Hy as [?|Hy]; [done|]);
           by apply elem_of_nil in Hy|]).
  by apply elem_of_nil in Hf.
Defined.

Lemma home_dropdown_order_witness :
  Collation
  ∧ ∃ v, response (home ∅ plain) = RenderHome v
       ∧ StronglySorted dropdownOrder (home_supportedFestivals v).
Proof.
  split; [exact collation|].
  destruct (home_dropdown_order (collation := collation) ∅ plain)
    as (v & Hv & _ & Hsorted & _).
  exists v. split; [exact Hv|exact Hsorted].
Defined.

End ExampleFacts.

(** * More of [pages.ts] *)

(** ** [/customize]: which requests render, and what the session restores *)

Section customize_more.
Context {constants : Constants} {redisHelper : RedisHelper} {platform : Platform}.

(** A rendered page comes from a request with both parameters, and shows
    the edition that [findEdition] returns for them. *)
Lemma customize_render_request db req v :
  response (customize db req) = RenderCustomize v →
  ∃ name yearStr,
    query req !! "festival" = Some name ∧ name ≠ ""
    ∧ query req !! "year" = Some yearStr ∧ yearStr ≠ ""
    ∧ findEdition name (parseInt10 yearStr) = Some (cv_festival v)
    ∧ cv_festivalYear v = parseInt10 yearStr.
Proof.
  unfold customize.
  destruct (falsy (query req !! "festival") || falsy (query req !! "year"))
    eqn:Hfalsy; [done|].
  apply orb_false_iff in Hfalsy as [Hf Hy].
  destruct (query req !! "festival") as [name|]; [|done].
  destruct (query req !! "year") as [yearStr|]; [|done].
  simpl in *. apply bool_decide_eq_false in Hf, Hy.
  destruct (findEdition name (parseInt10 yearStr)) as [festival|] eqn:Hfind;
    [|done].
  destruct (bool_decide (Festival.name festival = "")); [done|].
  destruct (loadSelection db req festival _) as [[sel log] db'].
  simpl. intros [= <-]. by exists name, yearStr.
Qed.

(** The first element that passes a filter splits the list. *)
Lemma head_filter_Some {A : Type} (P : A → Prop) `{∀ x, Decision (P x)}
    (l : list A) (x : A) :
  head (filter P l) = Some x →
  ∃ l1 l2, l = l1 ++ x :: l2 ∧ P x ∧ ∀ z, z ∈ l1 → ¬ P z.
Proof.
  induction l as [|a l IH]; [done|].
  destruct (decide (P a)) as [Ha|Ha].
  - rewrite filter_cons_True by done. intros [= ->].
    exists [], l. split_and!; [done..|]. intros z Hz. by apply elem_of_nil in Hz.
  - rewrite filter_cons_False by done. intros (l1 & l2 & -> & Hx & Hl1)%IH.
    exists (a :: l1), l2. split_and!; [done..|].
    intros z [->|Hz]%elem_of_cons; [done|by apply Hl1].
Qed.

(** X1.  A [/customize] page is rendered only for a request whose
    festival parameter is the name of a catalog festival and whose year
    parameter, read by [parseInt], is one of the years of that festival.
    The page shows the parsed year and the first festival of the catalog
    with that name and year. *)
Theorem customize_renders_only_valid db req v :
  response (customize db req) = RenderCustomize v →
  ∃ name yearStr y before after,
    query req !! "festival" = Some name ∧ name ≠ ""
    ∧ query req !! "year" = Some yearStr ∧ yearStr ≠ ""
    ∧ parseInt10 yearStr = Num y
    ∧ cv_festivalYear v = Num y
    ∧ Festival.name (cv_festival v) = name
    ∧ y ∈ Festival.years (cv_festival v)
    ∧ supportedFestivals = before ++ cv_festival v :: after
    ∧ ∀ f, f ∈ before → ¬ (Festival.name f = name ∧ y ∈ Festival.years f).
Proof.
  intros Hv.
  destruct (customize_render_request db req v Hv)
    as (name & yearStr & Hf & Hname & Hy & HyearStr & Hfind & Hyear).
  destruct (findEdition_Some _ _ _ Hfind) as (_ & Hfname & y & Hnum & Hyr).
  unfold findEdition in Hfind.
  apply head_filter_Some in Hfind as (before & after & Hsplit & _ & Hfirst).
  exists name, yearStr, y, before, after.
  split_and!; [done..|congruence|done|done|done|].
  intros f Hin [Hn Hyf]. apply (Hfirst f Hin). split; [done|].
  rewrite Hnum. simpl. by apply bool_decide_pack.
Qed.

(** X2.  On every rendered [/customize] page exactly one of the three
    track-type flags is ["checked"] and the other two are empty: the
    setlist flag if the restored session has the track type ["setlist"],
    the new-tracks flag if it has ["recent"], and the top-tracks flag in
    every other case (["top"], an unknown value, no value, no restored
    session). *)
Theorem customize_track_flags db req v :
  response (customize db req) = RenderCustomize v →
  let trackType :=
    restoredSession db req (cv_festival v) (cv_festivalYear v)
      ≫= SessionData.trackType in
  (cv_topTracksCheckedStr v, cv_setlistTracksCheckedStr v,
   cv_newTracksCheckedStr v)
  = if decide (trackType = Some "setlist") then ("", "checked", "")
    else if decide (trackType = Some "recent") then ("", "", "checked")
    else ("checked", "", "").
Proof.
  intros Hv trackType. destruct (customize_render db req v Hv) as (-> & _).
  simpl. subst trackType. unfold loadSelection.
  destruct (restoredSession db req _ _) as [sd|]; simpl; [|done].
  unfold restoreSelection.
  destruct (decide (SessionData.trackType sd = Some "top")) as [Ht|];
    [by rewrite Ht|].
  destruct (decide (SessionData.trackType sd = Some "setlist")); [done|].
  by destruct (decide (SessionData.trackType sd = Some "recent")).
Qed.

(** X3.  The tracks-per-artist value of a rendered [/customize] page is
    the number saved in the restored session, and 3 when there is no
    restored session, no saved value, or the saved value is [NaN]; the
    page never shows [NaN]. *)
Theorem customize_tracksPerArtist db req v :
  response (customize db req) = RenderCustomize v →
  let saved :=
    restoredSession db req (cv_festival v) (cv_festivalYear v)
      ≫= SessionData.tracksPerArtist in
  cv_tracksPerArtist v
  = match saved with
    | Some (Num n) => Num n
    | _ => Num 3
    end
  ∧ cv_tracksPerArtist v ≠ NaN.
Proof.
  intros Hv saved. destruct (customize_render db req v Hv) as (-> & _).
  simpl. subst saved. unfold loadSelection.
  destruct (restoredSession db req _ _) as [sd|]; simpl; [|done].
  unfold restoreSelection.
  destruct (SessionData.tracksPerArtist sd) as [[n|]|]; simpl;
    by repeat case_decide.
Qed.

(** X4.  A rendered [/customize] request for the festival and year of
    the stored session leaves the store as it is.  It logs nothing when
    the saved track type is one of the three known values, and one
    [console.error] line otherwise. *)
Theorem customize_same_festival db req v sessionData :
  response (customize db req) = RenderCustomize v →
  getSessionData db (sessionUid req) = Some sessionData →
  SessionData.festivalName sessionData = Festival.name (cv_festival v) →
  SessionData.festivalYear sessionData = cv_festivalYear v →
  let trackType := SessionData.trackType sessionData in
  db_after (customize db req) = db
  ∧ (trackType ∈ [Some "top"; Some "setlist"; Some "recent"] →
     console (customize db req) = [])
  ∧ (trackType ∉ [Some "top"; Some "setlist"; Some "recent"] →
     ∃ msg, console (customize db req) = [console_error msg]).
Proof.
  intros Hv Hsd Hname Hyear trackType.
  destruct (customize_render db req v Hv) as (_ & -> & ->).
  destruct (customize_render_request db req v Hv)
    as (name & yearStr & _ & _ & _ & _ & Hfind & Hy).
  destruct (findEdition_Some _ _ _ Hfind) as (_ & _ & y & Hnum & _).
  assert (restoredSession db req (cv_festival v) (cv_festivalYear v)
          = Some sessionData) as Hrestored.
  { unfold restoredSession. rewrite Hsd, Hname, Hyear, Hy, Hnum. simpl.
    by rewrite !bool_decide_eq_true_2. }
  unfold loadSelection. rewrite Hrestored. unfold restoreSelection.
  fold trackType. split_and!.
  - by repeat case_decide.
  - intros Hin. repeat case_decide; simpl; try done.
    repeat (apply elem_of_cons in Hin as [?|Hin]; [done|]).
    by apply elem_of_nil in Hin.
  - intros Hnot. repeat case_decide; simpl;
      try (destruct Hnot; rewrite !elem_of_cons; tauto).
    by eexists.
Qed.

End customize_more.

(** ** The store under the handlers *)

Section store_more.
Context {constants : Constants} {redisHelper : RedisHelper} {platform : Platform}.

Lemma resetSession_lookup db req festival queryYear :
  resetSession db req festival queryYear !! sessionKey req
  = Some (Redis.hgetall (sessionKey req)
            (resetSession db req festival queryYear)).
Proof.
  unfold Redis.hgetall, resetSession, Redis.hmset.
  by rewrite lookup_insert_eq.
Qed.

Lemma minimal_lookup_other name display_name year f :
  f ∉ ["festivalName"; "festivalDisplayName"; "festivalYear"] →
  SessionData.to_hash (SessionData.minimal name display_name year) !! f = None.
Proof.
  intros Hf. rewrite minimal_to_hash.
  rewrite !lookup_insert_ne; [done|intros <-; apply Hf; repeat constructor..].
Qed.

Lemma minimal_lookup_is_Some name display_name year f :
  f ∈ ["festivalName"; "festivalDisplayName"; "festivalYear"] →
  is_Some (SessionData.to_hash (SessionData.minimal name display_name year) !! f).
Proof.
  intros Hf. rewrite minimal_to_hash.
  repeat (apply elem_of_cons in Hf as [->|Hf]; [by eexists|]).
  by apply elem_of_nil in Hf.
Qed.

(** X5.  Resets compose by the last one: the store after the reset for
    one edition followed by the reset for another is the store after the
    second reset alone; in particular a repeated reset changes nothing
    more. *)
Theorem resetSession_last_wins db req festival1 year1 festival2 year2 :
  resetSession (resetSession db req festival1 year1) req festival2 year2
  = resetSession db req festival2 year2.
Proof.
  apply map_eq. intros key.
  destruct (decide (key = sessionKey req)) as [->|Hkey].
  - rewrite !resetSession_lookup. f_equal.
    rewrite !resetSession_hgetall. apply map_eq. intros f.
    rewrite !lookup_union.
    destruct (decide (f ∈ ["festivalName"; "festivalDisplayName";
                            "festivalYear"])) as [Hf|Hf].
    + destruct (minimal_lookup_is_Some (Festival.name festival2)
                  (Festival.display_name festival2) year2 f Hf) as [x ->].
      by rewrite !union_Some_l.
    + rewrite (minimal_lookup_other _ _ year2 f Hf). rewrite !(left_id_L None _).
      rewrite !lookup_foldr_delete. destruct (decide (f ∈ staleFields)); [done|].
      rewrite lookup_union, (minimal_lookup_other _ _ year1 f Hf).
      rewrite (left_id_L None _). rewrite lookup_foldr_delete.
      by rewrite decide_False.
  - by rewrite !resetSession_other.
Qed.

(** X6.  No handler touches the session of another visitor: after any of
    the five routes every key of the store other than the requester's
    holds what it held.  [/health], [/] and [/generate-playlist-success]
    leave the whole store as it is and log nothing. *)
Theorem handlers_isolated db req key :
  key ≠ sessionKey req →
  db_after (customize db req) !! key = db !! key
  ∧ db_after (personalizedLineup db req) !! key = db !! key
  ∧ (db_after (health db req) = db ∧ console (health db req) = [])
  ∧ (db_after (home db req) = db ∧ console (home db req) = [])
  ∧ (db_after (generatePlaylistSuccess db req) = db
     ∧ console (generatePlaylistSuccess db req) = []).
Proof.
  intros Hkey. split_and!; [| |done..| |].
  - unfold customize.
    destruct (falsy (query req !! "festival") || falsy (query req !! "year"));
      [done|].
    destruct (findEdition _ _) as [festival|]; [|done].
    destruct (falsy (Some (Festival.name festival))); [done|].
    unfold loadSelection.
    destruct (restoredSession db req festival _) as [sd|].
    + by destruct (restoreSelection sd).
    + simpl. by apply resetSession_other.
  - unfold personalizedLineup.
    destruct (getSessionData db (sessionUid req)) as [sd|]; [|done].
    destruct (SessionData.artistIdsStr sd); [|done].
    simpl. unfold Redis.hmset. by rewrite lookup_insert_ne.
  - unfold generatePlaylistSuccess.
    destruct (getSessionData db (sessionUid req)) as [sd|]; [|done].
    by destruct (findEdition _ _).
  - unfold generatePlaylistSuccess.
    destruct (getSessionData db (sessionUid req)) as [sd|]; [|done].
    by destruct (findEdition _ _).
Qed.

End store_more.

(** ** [split] and [join] *)

Lemma join_cons_cons (sep x y : string) (l : list string) :
  join sep (x :: y :: l) = x +:+ sep +:+ join sep (y :: l).
Proof. reflexivity. Qed.

(** Joining what [split] returns gives the string back. *)
Lemma join_split (sep : ascii) (s : string) :
  join (String sep "") (split sep s) = s.
Proof.
  induction s as [|c s IH]; simpl; [done|].
  destruct (split_cons sep s) as (h & t & Hs). rewrite Hs in IH |- *.
  destruct (decide (c = sep)) as [->|Hne].
  - rewrite join_cons_cons, IH. done.
  - destruct t as [|y t].
    + simpl in IH |- *. by rewrite IH.
    + rewrite join_cons_cons in IH |- *. by rewrite <-IH.
Qed.

Lemma split_no_sep (sep : ascii) (x : string) :
  contains sep x = false → split sep x = [x].
Proof.
  induction x as [|c x IH]; simpl; [done|].
  intros [Hc Hx]%orb_false_iff. apply bool_decide_eq_false in Hc.
  rewrite decide_False by done. by rewrite IH.
Qed.

Lemma split_app_sep (sep : ascii) (x rest : string) :
  contains sep x = false →
  split sep (x +:+ String sep rest) = x :: split sep rest.
Proof.
  induction x as [|c x IH]; simpl.
  - intros _. by rewrite decide_True.
  - intros [Hc Hx]%orb_false_iff. apply bool_decide_eq_false in Hc.
    rewrite decide_False by done.
    change (String.append x (String sep rest)) with (x +:+ String sep rest).
    by rewrite IH.
Qed.

(** Splitting the join of a non-empty list of strings without the
    separator gives the list back. *)
Lemma split_join (sep : ascii) (l : list string) :
  l ≠ [] → Forall (λ x, contains sep x = false) l →
  split sep (join (String sep "") l) = l.
Proof.
  induction l as [|x l IH]; [done|]. intros _ Hl.
  apply Forall_cons in Hl as [Hx Hl]. destruct l as [|y l].
  - by apply split_no_sep.
  - rewrite join_cons_cons.
    change (String sep "" +:+ join (String sep "") (y :: l))
      with (String sep (join (String sep "") (y :: l))).
    rewrite split_app_sep by done. f_equal. by apply IH.
Qed.

(** ** [/personalized-lineup]: the acts and the stored session *)

Section lineup_more.
Context {constants : Constants} {redisHelper : RedisHelper} {platform : Platform}.

Lemma with_trackIdsStr_insert sessionData v :
  SessionData.to_hash (SessionData.with_trackIdsStr sessionData v)
  = <["trackIdsStr" := v]> (SessionData.to_hash sessionData).
Proof.
  destruct sessionData as [? ? ? [?|] [?|] [?|] [?|] [?|] [?|] [?|] [?|]];
    reflexivity.
Qed.

(** What the handler renders and stores, in terms of the acts. *)
Lemma personalizedLineup_stored db req sessionData artistIdsStr :
  getSessionData db (sessionUid req) = Some sessionData →
  SessionData.artistIdsStr sessionData = Some artistIdsStr →
  let artists :=
    getArtistsForFestival db (SessionData.festivalName sessionData)
      (SessionData.festivalYear sessionData) in
  ∃ v, response (personalizedLineup db req) = RenderLineup v
    ∧ act_artist <$> lv_acts v
      = filter (λ a, SpotifyArtist.id a ∈ split "," artistIdsStr) artists
    ∧ Redis.hgetall (sessionKey req) (db_after (personalizedLineup db req))
      = <["trackIdsStr" :=
            join "," (lv_acts v ≫= λ act, fetchedIds (act_tracks act))]>
          (SessionData.to_hash sessionData
           ∪ Redis.hgetall (sessionKey req) db)
    ∧ (length (console (personalizedLineup db req)) ≤ length (lv_acts v))%nat.
Proof.
  intros Hsd Hids artists.
  destruct (personalizedLineup_render db req sessionData artistIdsStr Hsd Hids)
    as (v & Hv & Hacts & Hlog & Hdb).
  unfold resolveTracks in Hacts, Hlog, Hdb.
  rewrite resolveLoop_unfold in Hacts, Hlog, Hdb. simpl in Hacts, Hlog, Hdb.
  exists v. split; [done|]. rewrite Hacts, Hlog, Hdb. split_and!.
  - rewrite <-list_fmap_compose, list_fmap_id. apply filterArtists_split.
  - unfold Redis.hgetall at 1. unfold Redis.hmset. rewrite lookup_insert_eq.
    simpl. rewrite with_trackIdsStr_insert, bind_fmap.
    by rewrite <-insert_union_l.
  - rewrite length_fmap. destruct (strategyOf _).2; simpl; [|lia].
    rewrite length_replicate. lia.
Qed.

(** X7.  The acts of the lineup page are the artists of the festival
    whose id is among the comma-separated ids of [artistIdsStr], each
    once per occurrence in the festival's list and in the festival's
    order; the order of the saved ids and saved ids of no artist have no
    effect. *)
Theorem lineup_acts_are_chosen db req sessionData artistIdsStr :
  getSessionData db (sessionUid req) = Some sessionData →
  SessionData.artistIdsStr sessionData = Some artistIdsStr →
  let artists :=
    getArtistsForFestival db (SessionData.festivalName sessionData)
      (SessionData.festivalYear sessionData) in
  ∃ v, response (personalizedLineup db req) = RenderLineup v
    ∧ act_artist <$> lv_acts v
      = filter (λ a, SpotifyArtist.id a ∈ split "," artistIdsStr) artists
    ∧ act_artist <$> lv_acts v `sublist_of` artists.
Proof.
  intros Hsd Hids artists.
  destruct (personalizedLineup_stored db req sessionData artistIdsStr Hsd Hids)
    as (v & Hv & Hacts & _).
  exists v. split_and!; [done..|]. rewrite Hacts. apply sublist_filter.
Qed.

(** X8.  [/personalized-lineup] merges into the stored hash: afterwards
    it holds [trackIdsStr], the properties of the loaded session data as
    strings, and every other field as before.  When the loaded session
    data are what the hash already holds, [trackIdsStr] is the only field
    that changes. *)
Theorem lineup_merges_trackIdsStr db req sessionData artistIdsStr :
  getSessionData db (sessionUid req) = Some sessionData →
  SessionData.artistIdsStr sessionData = Some artistIdsStr →
  let before := Redis.hgetall (sessionKey req) db in
  let after :=
    Redis.hgetall (sessionKey req) (db_after (personalizedLineup db req)) in
  ∃ trackIdsStr,
    after = <["trackIdsStr" := trackIdsStr]>
              (SessionData.to_hash sessionData ∪ before)
    ∧ (SessionData.to_hash sessionData ⊆ before →
       after = <["trackIdsStr" := trackIdsStr]> before).
Proof.
  intros Hsd Hids before after.
  destruct (personalizedLineup_stored db req sessionData artistIdsStr Hsd Hids)
    as (v & _ & _ & Hstored & _).
  eexists. split; [exact Hstored|]. intros Hsub. subst after.
  rewrite Hstored. f_equal. by apply map_subseteq_union.
Qed.

(** X9.  The stored [trackIdsStr] splits back into the ids of the
    fetched tracks when there is at least one and no id contains a comma.
    Without any fetched track the stored string is empty and splits into
    one empty id, not into none. *)
Theorem lineup_trackIdsStr_splits db req sessionData artistIdsStr :
  getSessionData db (sessionUid req) = Some sessionData →
  SessionData.artistIdsStr sessionData = Some artistIdsStr →
  ∃ v trackIdsStr,
    response (personalizedLineup db req) = RenderLineup v
    ∧ Redis.hgetall (sessionKey req) (db_after (personalizedLineup db req))
        !! "trackIdsStr" = Some trackIdsStr
    ∧ let ids := lv_acts v ≫= λ act, fetchedIds (act_tracks act) in
      (ids ≠ [] → Forall (λ id, contains "," id = false) ids →
       split "," trackIdsStr = ids)
      ∧ (ids = [] → trackIdsStr = "" ∧ split "," trackIdsStr = [""]).
Proof.
  intros Hsd Hids.
  destruct (personalizedLineup_stored db req sessionData artistIdsStr Hsd Hids)
    as (v & Hv & _ & Hstored & _).
  exists v. eexists. split; [done|]. split.
  { rewrite Hstored. apply lookup_insert_eq. }
  simpl. split.
  - intros Hne Hfree. by apply (split_join ",").
  - by intros ->.
Qed.

(** X10.  With the empty string saved as [artistIdsStr] and no artist
    with the empty id, the lineup page renders without acts, nothing is
    logged, and the empty string is stored as [trackIdsStr]. *)
Theorem lineup_empty_artistIds db req sessionData :
  getSessionData db (sessionUid req) = Some sessionData →
  SessionData.artistIdsStr sessionData = Some "" →
  (∀ a, a ∈ getArtistsForFestival db (SessionData.festivalName sessionData)
              (SessionData.festivalYear sessionData) →
        SpotifyArtist.id a ≠ "") →
  ∃ v, response (personalizedLineup db req) = RenderLineup v
    ∧ lv_acts v = []
    ∧ console (personalizedLineup db req) = []
    ∧ Redis.hgetall (sessionKey req) (db_after (personalizedLineup db req))
        !! "trackIdsStr" = Some "".
Proof.
  intros Hsd Hids Hartists.
  destruct (personalizedLineup_stored db req sessionData "" Hsd Hids)
    as (v & Hv & Hacts & Hstored & Hlog).
  rewrite filter_none in Hacts.
  2:{ intros a Ha Hin. apply (Hartists a Ha).
      change (split "," "") with [""] in Hin.
      by apply list_elem_of_singleton in Hin. }
  apply fmap_nil_inv in Hacts. rewrite Hacts in Hstored, Hlog.
  exists v. split_and!; [done..| |].
  - destruct (console _); [done|simpl in Hlog; lia].
  - rewrite Hstored. apply lookup_insert_eq.
Qed.

End lineup_more.

(** ** [/customize]: the order of the lists and the emptied selection *)

Lemma pretty_N_go_nonempty (x : N) (s : string) :
  s ≠ "" → pretty_N_go x s ≠ "".
Proof.
  revert s. induction (N.lt_wf_0 x) as [x _ IH]; intros s Hs.
  destruct (decide (x = 0)%N) as [->|Hx]; [by rewrite pretty_N_go_0|].
  rewrite pretty_N_go_step by lia. apply IH; [|done].
  apply N.div_lt; lia.
Qed.

Lemma pretty_N_nonempty (x : N) : pretty x ≠ "".
Proof.
  unfold pretty, pretty_N. case_decide as Hx; [done|].
  rewrite pretty_N_go_step by lia. by apply pretty_N_go_nonempty.
Qed.

(** A day number as a string is never the empty string. *)
Lemma pretty_Z_nonempty (z : Z) : pretty z ≠ "".
Proof.
  destruct z as [|p|p]; [done|apply pretty_N_nonempty|done].
Qed.

Section order_more.
Context {constants : Constants} {redisHelper : RedisHelper} {platform : Platform}.

Lemma keyed_keys {V : Type} (f : string → V) (acc : list string) :
  ((λ g, (g, f g)) <$> acc).*1 = acc.
Proof. rewrite <-list_fmap_compose. apply list_fmap_id. Qed.

(** The genre loop keeps, in each map, the tags of its kind in the order
    of their first occurrence. *)
Lemma genreLoop_order prev gs (accM accS : list string) :
  let keyed acc := (λ g, (g, genreEntry prev g)) <$> acc in
  let step (acc : list string) x :=
    if includes acc x then acc else acc ++ [x] in
  foldl (genreStep prev) (keyed accM, keyed accS) gs
  = (keyed (foldl step accM (filter (λ g, g ∈ mainGenres) gs)),
     keyed (foldl step accS (filter (λ g, g ∉ mainGenres) gs))).
Proof.
  intros keyed step. revert accM accS.
  induction gs as [|g gs IH]; intros accM accS; [done|]. cbn [foldl].
  assert (∀ acc, Map.has g (keyed acc) = includes acc g) as Hhas.
  { intros acc. unfold Map.has, includes, keyed. by rewrite keyed_keys. }
  assert (∀ acc, Map.set g (genreEntry prev g) (keyed acc) = keyed (step acc g))
    as Hset.
  { intros acc. unfold Map.set, step. rewrite Hhas.
    destruct (includes acc g) eqn:Hin.
    - apply includes_spec in Hin. unfold keyed.
      rewrite <-list_fmap_compose. apply list_fmap_ext.
      intros _ g' _. simpl. by destruct (decide (g' = g)) as [->|].
    - unfold keyed. by rewrite fmap_app. }
  unfold genreStep at 2. destruct (includes mainGenres g) eqn:Hmain.
  - apply includes_spec in Hmain.
    rewrite (filter_cons_True (λ g, g ∈ mainGenres)) by done.
    rewrite (filter_cons_False (λ g, g ∉ mainGenres)) by (by intros []).
    cbn [foldl]. rewrite <-IH, Hhas.
    destruct (includes accM g) eqn:Hin; simpl.
    + unfold step at 1. by rewrite Hin.
    + fold (genreEntry prev g). by rewrite Hset.
  - assert (g ∉ mainGenres) as Hnot
      by (intros Hin%includes_spec; congruence).
    rewrite (filter_cons_False (λ g, g ∈ mainGenres)) by done.
    rewrite (filter_cons_True (λ g, g ∉ mainGenres)) by done.
    cbn [foldl]. rewrite <-IH, Hhas.
    destruct (includes accS g) eqn:Hin; simpl.
    + unfold step at 1. by rewrite Hin.
    + fold (genreEntry prev g). by rewrite Hset.
Qed.

(** With distinct day numbers the day loop appends one entry per day. *)
Lemma dayLoop_NoDup prev days (daysMap : list (string * StatefulObject.t LineupDay.t)) :
  NoDup (daysMap.*1 ++ ((λ d, pretty (LineupDay.number d)) <$> days)) →
  foldl (dayStep prev) daysMap days
  = daysMap ++ ((λ d, (pretty (LineupDay.number d), dayEntry prev d)) <$> days).
Proof.
  revert daysMap. induction days as [|d days IH]; intros daysMap Hnd;
    cbn [foldl].
  - by rewrite app_nil_r.
  - assert (dayStep prev daysMap d
            = daysMap ++ [(pretty (LineupDay.number d), dayEntry prev d)])
      as ->.
    { unfold dayStep, Map.set.
      assert (Map.has (pretty (LineupDay.number d)) daysMap = false) as ->;
        [|done].
      apply Map_has_false. apply NoDup_app in Hnd as (_ & Hdisj & _).
      intros Hin. apply (Hdisj _ Hin). rewrite fmap_cons. by left. }
    rewrite IH.
    + by rewrite <-app_assoc.
    + rewrite fmap_app. simpl. by rewrite <-app_assoc.
Qed.

(** The restored session of a request for the stored festival and year. *)
Lemma restoredSession_matching db req v sessionData :
  response (customize db req) = RenderCustomize v →
  getSessionData db (sessionUid req) = Some sessionData →
  SessionData.festivalName sessionData = Festival.name (cv_festival v) →
  SessionData.festivalYear sessionData = cv_festivalYear v →
  restoredSession db req (cv_festival v) (cv_festivalYear v) = Some sessionData.
Proof.
  intros Hv Hsd Hname Hyear.
  destruct (customize_render_request db req v Hv)
    as (name & yearStr & _ & _ & _ & _ & Hfind & Hy).
  destruct (findEdition_Some _ _ _ Hfind) as (_ & _ & y & Hnum & _).
  unfold restoredSession. rewrite Hsd, Hname, Hyear, Hy, Hnum. simpl.
  by rewrite !bool_decide_eq_true_2.
Qed.

(** The lists of a rendered page as the merger computes them. *)
Lemma customize_lists db req v :
  response (customize db req) = RenderCustomize v →
  let festival := cv_festival v in
  let queryYear := cv_festivalYear v in
  let db' := db_after (customize db req) in
  let sel := (loadSelection db req festival queryYear).1.1 in
  let artists := getArtistsForFestival db' (Festival.name festival) queryYear in
  let daysWithMetadata :=
    getLineupDayMetadata db' (Festival.name festival) queryYear
      <$> getLineupDays db' (Festival.name festival) queryYear in
  cv_artists v = artistsDone (mergeArtists sel artists)
  ∧ cv_mainGenres v = Map.values (mainGenresMap (mergeArtists sel artists))
  ∧ cv_specificGenres v
    = Map.values (specificGenresMap (mergeArtists sel artists))
  ∧ cv_days v
    = Map.values
        (foldl (dayStep (previouslySelectedDays sel)) Map.empty daysWithMetadata).
Proof.
  intros Hv festival queryYear db' sel artists daysWithMetadata.
  destruct (customize_render db req v Hv) as (Heq & Hdb & _).
  fold festival queryYear in Heq, Hdb. rewrite <-Hdb in Heq. fold db' in Heq.
  rewrite Heq. unfold customizeView, mergeDays, sortedValues. simpl.
  by rewrite !sort_default_objects.
Qed.

(** X11.  The genre lists of a rendered [/customize] page are in the
    order in which the artist loop first meets each tag: the main genres
    are the distinct tags of the curated list, the specific genres the
    distinct other tags, each with the state of the rule.  The [sort()]
    calls change nothing. *)
Theorem customize_genre_order db req v :
  response (customize db req) = RenderCustomize v →
  let festival := cv_festival v in
  let queryYear := cv_festivalYear v in
  let prev :=
    previouslySelected SessionData.selectedGenresStr
      (restoredSession db req festival queryYear) in
  let genres :=
    genresOf (getArtistsForFestival (db_after (customize db req))
                (Festival.name festival) queryYear) in
  cv_mainGenres v
  = genreEntry prev <$> distinct (filter (λ g, g ∈ mainGenres) genres)
  ∧ cv_specificGenres v
    = genreEntry prev <$> distinct (filter (λ g, g ∉ mainGenres) genres).
Proof.
  intros Hv festival queryYear prev genres.
  destruct (customize_lists db req v Hv) as (_ & -> & -> & _).
  destruct (loadSelection_previous db req festival queryYear) as (_ & HG & _).
  fold festival queryYear. unfold mergeArtists. rewrite artistLoop_unfold.
  simpl. rewrite HG. fold prev genres.
  pose proof (genreLoop_order prev genres [] []) as Hloop. simpl in Hloop.
  unfold Map.empty. rewrite Hloop. simpl. unfold Map.values, distinct.
  by rewrite <-!list_fmap_compose.
Qed.

(** X12.  When the days of the lineup have distinct numbers, the day
    list of a rendered [/customize] page has one entry per day, in the
    order of the lineup days, each with the state of the rule. *)
Theorem customize_day_order db req v :
  response (customize db req) = RenderCustomize v →
  let festival := cv_festival v in
  let queryYear := cv_festivalYear v in
  let db' := db_after (customize db req) in
  let prev :=
    previouslySelected SessionData.selectedDaysStr
      (restoredSession db req festival queryYear) in
  let daysWithMetadata :=
    getLineupDayMetadata db' (Festival.name festival) queryYear
      <$> getLineupDays db' (Festival.name festival) queryYear in
  NoDup (LineupDay.number <$> daysWithMetadata) →
  cv_days v = dayEntry prev <$> daysWithMetadata.
Proof.
  intros Hv festival queryYear db' prev daysWithMetadata Hnd.
  destruct (customize_lists db req v Hv) as (_ & _ & _ & ->).
  destruct (loadSelection_previous db req festival queryYear) as (_ & _ & HD).
  fold festival queryYear db' daysWithMetadata. rewrite HD. fold prev.
  rewrite dayLoop_NoDup.
  - unfold Map.empty, Map.values. simpl. by rewrite <-list_fmap_compose.
  - unfold Map.empty. simpl.
    change (NoDup ((pretty ∘ LineupDay.number) <$> daysWithMetadata)).
    rewrite list_fmap_compose. by apply (NoDup_fmap_2 pretty).
Qed.

(** X13.  When the stored session of the requested festival and year has
    the empty string as a saved selection, the page unchecks that
    dimension: every day for an empty [selectedDaysStr], every artist
    with a non-empty id for an empty [artistIdsStr], every genre tag
    other than the empty one for an empty [selectedGenresStr]. *)
Theorem customize_emptied_selection db req v sessionData :
  response (customize db req) = RenderCustomize v →
  getSessionData db (sessionUid req) = Some sessionData →
  SessionData.festivalName sessionData = Festival.name (cv_festival v) →
  SessionData.festivalYear sessionData = cv_festivalYear v →
  (SessionData.selectedDaysStr sessionData = Some "" →
   Forall (λ e, StatefulObject.state e = "") (cv_days v))
  ∧ (SessionData.artistIdsStr sessionData = Some "" →
     Forall (λ a, SpotifyArtist.id a ≠ "" → SpotifyArtist.checkedStr a = "")
       (cv_artists v))
  ∧ (SessionData.selectedGenresStr sessionData = Some "" →
     Forall (λ e, StatefulObject.obj e ≠ "" → StatefulObject.state e = "")
       (cv_mainGenres v ++ cv_specificGenres v)).
Proof.
  intros Hv Hsd Hname Hyear.
  pose proof (restoredSession_matching db req v sessionData Hv Hsd Hname Hyear)
    as Hrestored.
  destruct (customize_lists db req v Hv) as (-> & -> & -> & ->).
  destruct (loadSelection_previous db req (cv_festival v) (cv_festivalYear v))
    as (HA & HG & HD).
  rewrite Hrestored in HA, HG, HD. simpl in HA, HG, HD.
  assert (∀ k, k ≠ "" → checkedStr (Some [""]) k = "") as Hunchecked.
  { intros k Hk. unfold checkedStr, includes.
    rewrite bool_decide_eq_false_2; [done|].
    by intros ->%list_elem_of_singleton. }
  split_and!.
  - intros Hdays. rewrite Hdays in HD. apply Forall_forall. intros e He.
    destruct (mergeDays_spec (loadSelection db req (cv_festival v)
                                (cv_festivalYear v)).1.1
                (getLineupDayMetadata (db_after (customize db req))
                   (Festival.name (cv_festival v)) (cv_festivalYear v)
                   <$> getLineupDays (db_after (customize db req))
                         (Festival.name (cv_festival v)) (cv_festivalYear v)))
      as (_ & Hday).
    unfold mergeDays, sortedValues in Hday.
    rewrite sort_default_objects in Hday.
    destruct (Hday e He) as (_ & ->). rewrite HD.
    apply Hunchecked, pretty_Z_nonempty.
  - intros Hartists. rewrite Hartists in HA. rewrite mergeArtists_artists.
    apply Forall_fmap, Forall_forall. intros a _ Hid. simpl in *.
    rewrite HA. by apply Hunchecked.
  - intros Hgenres. rewrite Hgenres in HG.
    destruct (GenreInv_values _ _ _ _
                (mergeArtists_inv
                   (loadSelection db req (cv_festival v) (cv_festivalYear v)).1.1
                   (getArtistsForFestival (db_after (customize db req))
                      (Festival.name (cv_festival v)) (cv_festivalYear v))))
      as (Hmain & Hspec & _).
    apply Forall_app. split; apply Forall_forall.
    + intros e (g & -> & _)%Hmain Hobj. simpl in *. rewrite HG.
      by apply Hunchecked.
    + intros e (g & -> & _)%Hspec Hobj. simpl in *. rewrite HG.
      by apply Hunchecked.
Qed.

End order_more.

(** ** The catalog lookup and the dropdown options *)

Section catalog_more.
Context {constants : Constants} {redisHelper : RedisHelper} {platform : Platform}.

(** X14.  When a catalog festival is the only one of its name with a
    given year, the lookup by that name and year returns it, and
    [/generate-playlist-success] for a session of that name and year
    renders that festival with the year and the playlist name and url of
    the session. *)
Theorem success_shows_edition db req sessionData (f : Festival.t) (y : Z) :
  f ∈ supportedFestivals →
  y ∈ Festival.years f →
  (∀ f', f' ∈ supportedFestivals → Festival.name f' = Festival.name f →
         y ∈ Festival.years f' → f' = f) →
  getSessionData db (sessionUid req) = Some sessionData →
  SessionData.festivalName sessionData = Festival.name f →
  SessionData.festivalYear sessionData = Num y →
  findEdition (Festival.name f) (Num y) = Some f
  ∧ ∃ v, response (generatePlaylistSuccess db req) = RenderSuccess v
       ∧ sv_festival v = f
       ∧ sv_festivalYear v = Num y
       ∧ sv_playlistName v = SessionData.playlistName sessionData
       ∧ sv_playlistUrl v = SessionData.playlistUrl sessionData.
Proof.
  intros Hin Hy Hunique Hsd Hname Hyear.
  assert (findEdition (Festival.name f) (Num y) = Some f) as Hfind.
  { destruct (proj2 (findEdition_is_Some (Festival.name f) (Num y)))
      as [f' Hf']; [exists f; split_and!; [done..|by exists y]|].
    destruct (findEdition_Some _ _ _ Hf') as (Hin' & Hname' & y' & [= <-] & Hy').
    by rewrite (Hunique f' Hin' Hname' Hy') in Hf'. }
  split; [done|]. unfold generatePlaylistSuccess.
  rewrite Hsd, Hname, Hyear, Hfind. by eexists.
Qed.

Lemma disableoptionifregion_spec (f : Festival.t) :
  (disableoptionifregion f = "disabled" ↔ Festival.name f = "")
  ∧ (disableoptionifregion f = "" ↔ Festival.name f ≠ "").
Proof.
  unfold disableoptionifregion. by destruct (Festival.name f).
Qed.

(** X15.  When every festival of the catalog has a name, the template
    helper disables exactly the region entries of the home dropdown: an
    option is ["disabled"] if it is the entry of a region of [regions]
    that some festival is in, and enabled if it is a festival of the
    catalog. *)
Theorem dropdown_disabled_options db req v :
  (∀ f, f ∈ supportedFestivals → Festival.name f ≠ "") →
  response (home db req) = RenderHome v →
  ∀ f, f ∈ home_supportedFestivals v →
    (disableoptionifregion f = "disabled" ↔
     ∃ r, r ∈ regions
          ∧ Region.name r ∈ Festival.region <$> supportedFestivals
          ∧ f = {| Festival.name := "";
                   Festival.display_name := Region.display_name r;
                   Festival.region := Region.name r;
                   Festival.years := [] |})
    ∧ (disableoptionifregion f = "" ↔ f ∈ supportedFestivals).
Proof.
  intros Hnames [= <-] f Hf. simpl in Hf. unfold sortedFestivals in Hf.
  rewrite sort_perm, withRegionEntries_eq in Hf.
  destruct (disableoptionifregion_spec f) as [Hdis Hen].
  rewrite Hdis, Hen.
  apply elem_of_app in Hf as [Hf|Hf].
  - split; split.
    + intros Hname. by destruct (Hnames f Hf).
    + intros (r & _ & _ & ->). by destruct (Hnames _ Hf).
    + done.
    + intros _. by apply Hnames.
  - apply list_elem_of_fmap in Hf as (r & -> & [Hused Hr]%list_elem_of_filter).
    split; split.
    + intros _. by exists r.
    + done.
    + done.
    + intros Hin. by destruct (Hnames _ Hin).
Qed.

End catalog_more.

(** ** The further properties on the example installation *)

Module MoreFacts.
Import Example.

Lemma bonnarooPage_rendered :
  response (customize bonnarooSession customizeBonnaroo)
  = RenderCustomize bonnarooPage.
Proof. vm_compute. reflexivity. Qed.

Lemma bonnarooData_loaded :
  getSessionData bonnarooSession "visitor" = Some bonnarooData.
Proof. vm_compute. reflexivity. Qed.

Lemma emptiedPage_rendered :
  response (customize emptiedSession customizeBonnaroo)
  = RenderCustomize emptiedPage.
Proof. vm_compute. reflexivity. Qed.

Lemma emptiedData_loaded :
  getSessionData emptiedSession "visitor" = Some emptiedData.
Proof. vm_compute. reflexivity. Qed.

(** The Bonnaroo page: the year 2024, one of the years of Bonnaroo. *)
Lemma customize_renders_only_valid_witness :
  response (customize bonnarooSession customizeBonnaroo)
  = RenderCustomize bonnarooPage
  ∧ ∃ y, cv_festivalYear bonnarooPage = Num y
         ∧ y ∈ Festival.years (cv_festival bonnarooPage).
Proof.
  split; [exact bonnarooPage_rendered|].
  destruct (customize_renders_only_valid bonnarooSession customizeBonnaroo
              bonnarooPage bonnarooPage_rendered)
    as (name & yearStr & y & _ & _ & _ & _ & _ & _ & _ & Hyear & _ & Hy & _).
  exists y. split; [exact Hyear|exact Hy].
Defined.

(** [/customize?festival=Coachella&year=%C2%A02024]: the year behind a
    no-break space is 2024, and the page is rendered. *)
Example customize_nbsp_year_example :
  ∃ v, response
         (customize ∅
            {| sessionUid := "visitor";
               query := {[ "festival" := "Coachella";
                           "year" := String "194" (String "160" "2024") ]} |})
       = RenderCustomize v
     ∧ cv_festival v = coachella
     ∧ cv_festivalYear v = Num 2024.
Proof. eexists. split; [vm_compute; reflexivity|]. split; reflexivity. Qed.

(** The saved track type ["acoustic"] is unknown: top tracks. *)
Lemma customize_track_flags_witness :
  response (customize bonnarooSession customizeBonnaroo)
  = RenderCustomize bonnarooPage
  ∧ (cv_topTracksCheckedStr bonnarooPage,
     cv_setlistTracksCheckedStr bonnarooPage,
     cv_newTracksCheckedStr bonnarooPage) = ("checked", "", "").
Proof.
  split; [exact bonnarooPage_rendered|].
  exact (customize_track_flags bonnarooSession customizeBonnaroo bonnarooPage
           bonnarooPage_rendered).
Defined.

Lemma customize_tracksPerArtist_witness :
  response (customize bonnarooSession customizeBonnaroo)
  = RenderCustomize bonnarooPage
  ∧ cv_tracksPerArtist bonnarooPage = Num 2
  ∧ cv_tracksPerArtist bonnarooPage ≠ NaN.
Proof.
  split; [exact bonnarooPage_rendered|].
  exact (customize_tracksPerArtist bonnarooSession customizeBonnaroo
           bonnarooPage bonnarooPage_rendered).
Defined.

Lemma customize_same_festival_witness :
  getSessionData bonnarooSession "visitor" = Some bonnarooData
  ∧ db_after (customize bonnarooSession customizeBonnaroo) = bonnarooSession.
Proof.
  split; [exact bonnarooData_loaded|].
  destruct (customize_same_festival bonnarooSession customizeBonnaroo
              bonnarooPage bonnarooData bonnarooPage_rendered
              bonnarooData_loaded eq_refl eq_refl) as [Hdb _].
  exact Hdb.
Defined.

(** The visitor's lineup request leaves the guest's session alone. *)
Lemma handlers_isolated_witness :
  "sessionData:guest" ≠ sessionKey plain
  ∧ db_after (personalizedLineup twoVisitors plain) !! "sessionData:guest"
    = twoVisitors !! "sessionData:guest".
Proof.
  assert ("sessionData:guest" ≠ sessionKey plain) as Hkey
    by (vm_compute; discriminate).
  split; [exact Hkey|].
  destruct (handlers_isolated twoVisitors plain "sessionData:guest" Hkey)
    as (_ & Hlineup & _).
  exact Hlineup.
Defined.

(** The saved ids are a3,a1; the acts are the first and the third act. *)
Lemma lineup_acts_are_chosen_witness :
  getSessionData bonnarooSession "visitor" = Some bonnarooData
  ∧ ∃ v, response (personalizedLineup bonnarooSession plain) = RenderLineup v
       ∧ SpotifyArtist.id <$> (act_artist <$> lv_acts v) = ["a1"; "a3"].
Proof.
  split; [exact bonnarooData_loaded|].
  destruct (lineup_acts_are_chosen bonnarooSession plain bonnarooData "a3,a1"
              bonnarooData_loaded eq_refl) as (v & Hv & Hacts & _).
  exists v. split; [exact Hv|]. rewrite Hacts. vm_compute. reflexivity.
Defined.

Lemma lineup_merges_trackIdsStr_witness :
  getSessionData bonnarooSession "visitor" = Some bonnarooData
  ∧ SessionData.to_hash bonnarooData
    ⊆ Redis.hgetall (sessionKey plain) bonnarooSession
  ∧ ∃ trackIdsStr,
      Redis.hgetall (sessionKey plain)
        (db_after (personalizedLineup bonnarooSession plain))
      = <["trackIdsStr" := trackIdsStr]>
          (Redis.hgetall (sessionKey plain) bonnarooSession).
Proof.
  assert (SessionData.to_hash bonnarooData
          ⊆ Redis.hgetall (sessionKey plain) bonnarooSession) as Hsub.
  { assert (SessionData.to_hash bonnarooData
            = Redis.hgetall (sessionKey plain) bonnarooSession) as ->
      by (vm_compute; reflexivity).
    reflexivity. }
  split; [exact bonnarooData_loaded|]. split; [exact Hsub|].
  destruct (lineup_merges_trackIdsStr bonnarooSession plain bonnarooData
              "a3,a1" bonnarooData_loaded eq_refl) as (t & _ & Honly).
  exists t. exact (Honly Hsub).
Defined.

Lemma lineup_trackIdsStr_splits_witness :
  getSessionData bonnarooSession "visitor" = Some bonnarooData
  ∧ ∃ v trackIdsStr,
      response (personalizedLineup bonnarooSession plain) = RenderLineup v
      ∧ Redis.hgetall (sessionKey plain)
          (db_after (personalizedLineup bonnarooSession plain))
          !! "trackIdsStr" = Some trackIdsStr.
Proof.
  split; [exact bonnarooData_loaded|].
  destruct (lineup_trackIdsStr_splits bonnarooSession plain bonnarooData
              "a3,a1" bonnarooData_loaded eq_refl) as (v & t & Hv & Ht & _).
  exists v, t. split; [exact Hv|exact Ht].
Defined.

(** The emptied selection: no acts, and the empty [trackIdsStr]. *)
Lemma lineup_empty_artistIds_witness :
  getSessionData emptiedSession "visitor" = Some emptiedData
  ∧ ∃ v, response (personalizedLineup emptiedSession plain) = RenderLineup v
       ∧ lv_acts v = [].
Proof.
  split; [exact emptiedData_loaded|].
  destruct (lineup_empty_artistIds emptiedSession plain emptiedData
              emptiedData_loaded eq_refl) as (v & Hv & Hacts & _).
  - intros a Ha. simpl in Ha.
    repeat (apply elem_of_cons in Ha as [->|Ha]; [done|]).
    by apply elem_of_nil in Ha.
  - exists v. split; [exact Hv|exact Hacts].
Defined.

(** rock and pop are main genres, met in this order; indie and techno are
    not. *)
Lemma customize_genre_order_witness :
  response (customize bonnarooSession customizeBonnaroo)
  = RenderCustomize bonnarooPage
  ∧ cv_mainGenres bonnarooPage
    = genreEntry (Some ["rock"; "techno"]) <$> ["rock"; "pop"]
  ∧ cv_specificGenres bonnarooPage
    = genreEntry (Some ["rock"; "techno"]) <$> ["indie"; "techno"].
Proof.
  split; [exact bonnarooPage_rendered|].
  exact (customize_genre_order bonnarooSession customizeBonnaroo bonnarooPage
           bonnarooPage_rendered).
Defined.

Lemma customize_day_order_witness :
  NoDup ([1; 2; 3] : list Z)
  ∧ cv_days bonnarooPage
    = dayEntry (Some ["2"])
        <$> [LineupDay.Build 1 "day"; LineupDay.Build 2 "day";
             LineupDay.Build 3 "day"].
Proof.
  assert (NoDup ([1; 2; 3] : list Z)) as Hnd
    by (apply (bool_decide_unpack _); vm_compute; exact I).
  split; [exact Hnd|].
  exact (customize_day_order bonnarooSession customizeBonnaroo bonnarooPage
           bonnarooPage_rendered Hnd).
Defined.

Lemma customize_emptied_selection_witness :
  getSessionData emptiedSession "visitor" = Some emptiedData
  ∧ Forall (λ e, StatefulObject.state e = "") (cv_days emptiedPage).
Proof.
  split; [exact emptiedData_loaded|].
  destruct (customize_emptied_selection emptiedSession customizeBonnaroo
              emptiedPage emptiedData emptiedPage_rendered emptiedData_loaded
              eq_refl eq_refl) as (Hdays & _).
  exact (Hdays eq_refl).
Defined.

Lemma success_shows_edition_witness :
  getSessionData freshSession "visitor" = Some freshData
  ∧ findEdition "Coachella" (Num 2024) = Some coachella
  ∧ ∃ v, response (generatePlaylistSuccess freshSession plain) = RenderSuccess v
       ∧ sv_festival v = coachella.
Proof.
  assert (getSessionData freshSession "visitor" = Some freshData) as Hsd
    by (vm_compute; reflexivity).
  split; [exact Hsd|].
  destruct (success_shows_edition freshSession plain freshData coachella 2024)
    as (Hfind & v & Hv & Hf & _); [by left|by right; left| |exact Hsd|done..|].
  - intros f' Hin Hname _. simpl in Hin.
    repeat (apply elem_of_cons in Hin as [->|Hin]; [done|]).
    by apply elem_of_nil in Hin.
  - split; [exact Hfind|]. exists v. split; [exact Hv|exact Hf].
Defined.

Lemma dropdown_disabled_options_witness :
  (∀ f, f ∈ supportedFestivals → Festival.name f ≠ "")
  ∧ disableoptionifregion coachella = ""
  ∧ disableoptionifregion (regionEntry (Region.Build "us" "United States"))
    = "disabled".
Proof.
  assert (∀ f, f ∈ supportedFestivals → Festival.name f ≠ "") as Hnames.
  { intros f Hf. simpl in Hf.
    repeat (apply elem_of_cons in Hf as [->|Hf]; [done|]).
    by apply elem_of_nil in Hf. }
  split; [exact Hnames|].
  pose proof (dropdown_disabled_options ∅ plain _ Hnames eq_refl) as Hopt.
  split.
  - apply (Hopt coachella); [|by left].
    vm_compute. do 4 right. left.
  - apply (Hopt (regionEntry (Region.Build "us" "United States"))).
    + vm_compute. do 2 right. left.
    + exists (Region.Build "us" "United States").
      split_and!; [by right; left|by left|done].
Defined.

End MoreFacts.
